(** * caption4sounds: the prediction utilities of [api/prediction_utils.py]

    A shallow embedding of the block windower ([block]), of the attention
    classifier built by [constrct_model], of the thresholding done by
    [model_prediction], of the table lookup of [prediction_label] and of
    the waveform scaling of [audio_load], together with the properties
    the specification states about them and further properties of the
    code.

    Conventions.
    - A numpy array of rank 1 is a [list], of rank 2 a list of rows, of
      rank 3 a list of blocks of rows.
    - Python integers are [Z]; positions produced by [np.where] and by
      [range] are [nat].
    - Floating-point numbers are read as the real numbers they denote:
      arithmetic is exact and rounding, overflow and NaN are not modelled.
    - A Python exception is a value [Raise e] of the [result] type. *)

From Stdlib Require Import String Reals Lra.
From Stdlib Require Import ZArith Lia Bool Arith List Sorted.
Import ListNotations.

Set Implicit Arguments.

(** ** Exceptions *)

(** The exceptions the modelled code can raise: [ZeroDivisionError] from
    [np.arange] with a zero step, [IndexError] from [np.take], [KeyError]
    from the pandas lookups, [ValueError] from a Keras shape check. *)
Inductive exn : Type :=
| ZeroDivisionError
| IndexError
| KeyError
| ValueError.

Inductive result (A : Type) : Type :=
| Ok (a : A)
| Raise (e : exn).

Arguments Ok {A} a.
Arguments Raise {A} e.

Definition bind {A B : Type} (r : result A) (k : A -> result B) : result B :=
  match r with
  | Ok a => k a
  | Raise e => Raise e
  end.

Notation "x <- r ;; k" := (bind r (fun x => k))
  (at level 61, r at next level, right associativity).

(** Left-to-right traversal that stops at the first exception. *)
Fixpoint mapM {A B : Type} (f : A -> result B) (l : list A) : result (list B) :=
  match l with
  | [] => Ok []
  | a :: l' =>
      b <- f a ;;
      bs <- mapM f l' ;;
      Ok (b :: bs)
  end.

(** ** numpy helpers used by [block] *)

Module Np.

(** [ceil_div a b] is the ceiling of the quotient [a / b] ([b <> 0]). *)
Definition ceil_div (a b : Z) : Z := (- ((- a) / b))%Z.

(** [np.arange(start, stop, step)] on Python integers: the values
    [start + k * step] for [0 <= k < ceil((stop - start) / step)]; a zero
    step raises. *)
Definition arange (start stop step : Z) : result (list Z) :=
  if (step =? 0)%Z then Raise ZeroDivisionError
  else
    let n := Z.to_nat (ceil_div (stop - start) step) in
    Ok (map (fun k => (start + Z.of_nat k * step)%Z) (seq 0 n)).

(** One index of [np.take(a, ..., axis=0)] in its default mode ['raise']:
    an index in [-len(a), len(a)) selects a row, negative ones counting
    from the end; any other index raises. *)
Definition take1 {A : Type} (a : list A) (i : Z) : result A :=
  let n := Z.of_nat (length a) in
  if ((i <? - n) || (n <=? i))%Z then Raise IndexError
  else
    match nth_error a (Z.to_nat (if (i <? 0)%Z then i + n else i)) with
    | Some x => Ok x
    | None => Raise IndexError
    end.

(** [np.take(a, indices, axis=0)] for a matrix of indices. *)
Definition take {A : Type} (a : list A) (indices : list (list Z))
  : result (list (list A)) :=
  mapM (mapM (take1 a)) indices.

(** [index_window + index_hop[:, np.newaxis]]: broadcasting a row against
    a column gives one row of indices per element of the column. *)
Definition add_outer (row col : list Z) : list (list Z) :=
  map (fun s => map (fun k => (k + s)%Z) row) col.

End Np.

(** ** The block windower *)

(** [block(vggish_features, window, hop)]. The rows of [vggish_features]
    are kept abstract: [np.take] along axis 0 moves whole rows. *)
Definition block {A : Type} (vggish_features : list A) (window hop : Z)
  : result (list (list A)) :=
  index_window <- Np.arange 0 window 1 ;;
  index_hop <- Np.arange 0 (Z.of_nat (length vggish_features) - window) hop ;;
  Np.take vggish_features (Np.add_outer index_window index_hop).

(** The Python slice [l[s : e]] for [0 <= s <= e]. *)
Definition slice {A : Type} (l : list A) (s e : Z) : list A :=
  firstn (Z.to_nat (e - s)) (skipn (Z.to_nat s) l).

(** The start offsets of the blocks of a sequence of length [T]. *)
Definition block_starts (T window hop : Z) : list Z :=
  map (fun k => (Z.of_nat k * hop)%Z)
      (seq 0 (Z.to_nat (Np.ceil_div (T - window) hop))).

(** An embedding sequence of shape (T, 2) for examples: row [k] is
    [[k, k]]. *)
Definition ramp (T : nat) : list (list nat) :=
  map (fun k => [k; k]) (seq 0 T).

(** ** Tensors of floating-point numbers *)

Abbreviation vec := (list R).
Abbreviation mat := (list (list R)).
Abbreviation tensor3 := (list (list (list R))).

(** Entry [c] of row [t] of block [n], when there is one. *)
Definition get3 (x : tensor3) (n t c : nat) : option R :=
  match nth_error x n with
  | Some m =>
      match nth_error m t with
      | Some row => nth_error row c
      | None => None
      end
  | None => None
  end.

(** [zip_with f] applies [f] to the entries two arrays of one shape have
    at the same position. *)
Fixpoint zip_with {A B C : Type} (f : A -> B -> C) (l : list A) (l' : list B)
  : list C :=
  match l, l' with
  | a :: t, b :: t' => f a b :: zip_with f t t'
  | _, _ => []
  end.

(** [enumerate l] pairs every element with its position. *)
Definition enumerate {A : Type} (l : list A) : list (nat * A) :=
  combine (seq 0 (length l)) l.

(** ** The Keras backend and layers used by [constrct_model] *)

Module K.

Local Open Scope R_scope.

(** Sum of the entries of a vector. *)
Definition sum (v : vec) : R := fold_right Rplus 0 v.

(** Entry [c] of row [t] of sample [n]. *)
Definition at3 (x : tensor3) (n t c : nat) : R :=
  nth c (nth t (nth n x []) []) 0.

(** Number of columns of a matrix. *)
Definition width (m : mat) : nat := length (hd [] m).

(** [K.clip(x, min_value, max_value)] on one entry. *)
Definition clip1 (x min_value max_value : R) : R :=
  Rmax (Rmin x max_value) min_value.

Definition clip_row (row : vec) (min_value max_value : R) : vec :=
  map (fun a => clip1 a min_value max_value) row.

Definition clip (x : tensor3) (min_value max_value : R) : tensor3 :=
  map (map (fun row => clip_row row min_value max_value)) x.

(** The sum of a matrix over its rows: one sum per column. *)
Definition sum_axis0 (m : mat) : vec :=
  map (fun c => sum (map (fun row => nth c row 0) m)) (seq 0 (width m)).

(** [K.sum(x, axis=1)] on a rank-3 tensor: for every sample and every
    column, the sum over the rows (the time axis). *)
Definition sum_axis1 (x : tensor3) : mat := map sum_axis0 x.

(** [x / s[:, None, :]]: every row of sample [n] is divided entrywise by
    the vector [s[n]]. *)
Definition div_broadcast (x : tensor3) (s : mat) : tensor3 :=
  zip_with (fun m sn => map (fun row => zip_with Rdiv row sn) m) x s.

(** Entrywise product of two rank-3 tensors of one shape. *)
Definition mul (x y : tensor3) : tensor3 :=
  zip_with (zip_with (zip_with Rmult)) x y.

(** Activations. [softmax] normalises over the last axis, which for the
    output of a [Dense] layer is the axis of its units. *)
Definition linear (v : vec) : vec := v.

Definition relu (v : vec) : vec := map (fun x => Rmax x 0) v.

Definition sigmoid1 (x : R) : R := 1 / (1 + exp (- x)).

Definition sigmoid (v : vec) : vec := map sigmoid1 v.

Definition softmax (v : vec) : vec :=
  let e := map exp v in
  map (fun a => a / sum e) e.

(** The parameters of a [Dense] layer: [kernel i j] is the weight from
    input [i] to unit [j]. *)
Record dense_weights : Type := {
  kernel : nat -> nat -> R;
  bias : nat -> R
}.

(** The frozen parameters of a [BatchNormalization] layer, per feature. *)
Record bn_weights : Type := {
  gamma : nat -> R;
  beta : nat -> R;
  moving_mean : nat -> R;
  moving_variance : nat -> R
}.

(** [Dense(units, activation)] on the last axis of its input. *)
Definition dense_row (units : nat) (activation : vec -> vec)
  (w : dense_weights) (row : vec) : vec :=
  activation
    (map (fun j =>
            sum (map (fun ix => snd ix * kernel w (fst ix) j) (enumerate row))
            + bias w j)
         (seq 0 units)).

(** [BatchNormalization()] at inference, with the Keras default
    [epsilon = 1e-3]. *)
Definition bn_epsilon : R := 1 / 1000.

Definition batch_normalization_row (w : bn_weights) (row : vec) : vec :=
  map (fun jx =>
         let j := fst jx in
         gamma w j * (snd jx - moving_mean w j)
           / sqrt (moving_variance w j + bn_epsilon)
         + beta w j)
      (enumerate row).

(** [Dropout(rate)] at inference leaves its input unchanged. *)
Definition dropout (rate : R) (x : tensor3) : tensor3 := x.

Definition Dense (units : nat) (activation : vec -> vec) (w : dense_weights)
  (x : tensor3) : tensor3 :=
  map (map (dense_row units activation w)) x.

Definition BatchNormalization (w : bn_weights) (x : tensor3) : tensor3 :=
  map (map (batch_normalization_row w)) x.

Definition Activation (activation : vec -> vec) (x : tensor3) : tensor3 :=
  map (map activation) x.

(** [Concatenate(axis=-1)] of two matrices with the same number of rows. *)
Definition Concatenate (x y : mat) : mat := zip_with (@app R) x y.

End K.

(** ** The attention classifier *)

(** A model is what [model_prediction] uses of it: its [predict]. *)
Record Model : Type := {
  predict : tensor3 -> result mat
}.

Module Classifier.

Local Open Scope R_scope.

(** The closure [attention_pooling] of [constrct_model]. *)
Definition attention_pooling (out att : tensor3) : mat :=
  let epsilon := 1 / 10000000 in
  let att := K.clip att epsilon (1 - epsilon) in
  let normalized_att := K.div_broadcast att (K.sum_axis1 att) in
  K.sum_axis1 (K.mul out normalized_att).

Definition time_steps : nat := 10.
Definition freq_bins : nat := 128.
Definition classes_num : nat := 527.

Definition hidden_units : nat := 1024.
Definition drop_rate : R := 1 / 2.

(** The content of the weights file, one entry per layer with
    parameters, in the order the layers are created. *)
Record weights : Type := {
  dense_a1 : K.dense_weights;
  bn_a1 : K.bn_weights;
  dense_a2 : K.dense_weights;
  bn_a2 : K.bn_weights;
  dense_a3 : K.dense_weights;
  bn_a3 : K.bn_weights;
  dense_cla1 : K.dense_weights;
  dense_att1 : K.dense_weights;
  dense_cla2 : K.dense_weights;
  dense_att2 : K.dense_weights;
  dense_b1 : K.dense_weights
}.

(** The embedded layers: the outputs [a2] and [a3] feed the two heads. *)
Definition embedded_a1 (w : weights) (input_layer : tensor3) : tensor3 :=
  let a1 := K.Dense hidden_units K.linear (dense_a1 w) input_layer in
  let a1 := K.BatchNormalization (bn_a1 w) a1 in
  let a1 := K.Activation K.relu a1 in
  K.dropout drop_rate a1.

Definition embedded_a2 (w : weights) (input_layer : tensor3) : tensor3 :=
  let a2 := K.Dense hidden_units K.linear (dense_a2 w)
              (embedded_a1 w input_layer) in
  let a2 := K.BatchNormalization (bn_a2 w) a2 in
  let a2 := K.Activation K.relu a2 in
  K.dropout drop_rate a2.

Definition embedded_a3 (w : weights) (input_layer : tensor3) : tensor3 :=
  let a3 := K.Dense hidden_units K.linear (dense_a3 w)
              (embedded_a2 w input_layer) in
  let a3 := K.BatchNormalization (bn_a3 w) a3 in
  let a3 := K.Activation K.relu a3 in
  K.dropout drop_rate a3.

(** The two tensors of a head on the features [a]: class activations
    and attention weights. *)
Definition head_cla (wc : K.dense_weights) (a : tensor3) : tensor3 :=
  K.Dense classes_num K.sigmoid wc a.

Definition head_att (wa : K.dense_weights) (a : tensor3) : tensor3 :=
  K.Dense classes_num K.softmax wa a.

(** The graph from [input_layer] to [output_layer]. *)
Definition forward (w : weights) (input_layer : tensor3) : mat :=
  let a2 := embedded_a2 w input_layer in
  let a3 := embedded_a3 w input_layer in
  let cla1 := head_cla (dense_cla1 w) a2 in
  let att1 := head_att (dense_att1 w) a2 in
  let out1 := attention_pooling cla1 att1 in
  let cla2 := head_cla (dense_cla2 w) a3 in
  let att2 := head_att (dense_att2 w) a3 in
  let out2 := attention_pooling cla2 att2 in
  let b1 := K.Concatenate out1 out2 in
  let b1 := map (K.dense_row classes_num K.linear (dense_b1 w)) b1 in
  map K.sigmoid b1.

(** The input of the graph is declared as [Input(shape=(time_steps,
    freq_bins))]: a block of another shape is refused. *)
Definition valid_block (b : mat) : bool :=
  (length b =? time_steps)%nat
  && forallb (fun row => (length row =? freq_bins)%nat) b.

(** An empty batch is refused as well: [predict] has no batch output
    to return for it. *)
Definition valid_block_tensor (x : tensor3) : bool :=
  negb (length x =? 0)%nat && forallb valid_block x.

(** [constrct_model(pathname, weights_name)], given the content [w] of
    the weights file. *)
Definition constrct_model (w : weights) : Model :=
  {| predict := fun x =>
       if valid_block_tensor x then Ok (forward w x) else Raise ValueError |}.

(** A matrix of [T] rows of [C] entries. *)
Definition shaped (T C : nat) (m : mat) : Prop :=
  length m = T /\ forall row, In row m -> length row = C.

(** Attention pooling as the specification words it, for one sample
    with class activations [out] and attention weights [att], both of
    shape (window, C), and one class [c]: the weights are clipped to
    [[1e-7, 1 - 1e-7]], divided by their sum over the time axis, and the
    activations are summed over the time axis with these weights. *)
Definition clipped (att : mat) (t c : nat) : R :=
  K.clip1 (nth c (nth t att []) 0) (1 / 10000000) (1 - 1 / 10000000).

Definition normalized (att : mat) (t c : nat) : R :=
  clipped att t c / K.sum (map (fun t' => clipped att t' c) (seq 0 (length att))).

Definition pooled (out att : mat) (c : nat) : R :=
  K.sum (map (fun t => nth c (nth t out []) 0 * normalized att t c)
             (seq 0 (length att))).

(** Weights and an input for examples: every kernel and bias is zero,
    batch normalisation is the identity up to its epsilon. *)
Definition zero_dense : K.dense_weights :=
  {| K.kernel := fun _ _ => 0; K.bias := fun _ => 0 |}.

Definition unit_bn : K.bn_weights :=
  {| K.gamma := fun _ => 1; K.beta := fun _ => 0;
     K.moving_mean := fun _ => 0; K.moving_variance := fun _ => 1 |}.

Definition zero_weights : weights :=
  {| dense_a1 := zero_dense; bn_a1 := unit_bn;
     dense_a2 := zero_dense; bn_a2 := unit_bn;
     dense_a3 := zero_dense; bn_a3 := unit_bn;
     dense_cla1 := zero_dense; dense_att1 := zero_dense;
     dense_cla2 := zero_dense; dense_att2 := zero_dense;
     dense_b1 := zero_dense |}.

Definition silent_block : mat := repeat (repeat 128 freq_bins) time_steps.

End Classifier.

(** ** Thresholding: [model_prediction] *)

Definition Rgtb (x y : R) : bool := if Rgt_dec x y then true else false.

(** [np.where(mask)] on a matrix of booleans: the row numbers and the
    column numbers of its true entries, in row-major order. *)
Definition np_where (mask : list (list bool)) : list nat * list nat :=
  split
    (flat_map
       (fun irow : nat * list bool =>
          flat_map (fun jb : nat * bool =>
                      if snd jb then [(fst irow, fst jb)] else [])
                   (enumerate (snd irow)))
       (enumerate mask)).

(** [a[idx]] for a boolean array [idx]: the entries of [a] where [idx]
    holds. *)
Definition mask_select {A : Type} (idx : list bool) (a : list A) : list A :=
  map snd (filter fst (combine idx a)).

(** [(np.float32(block_10s) - 128.) / 128.] *)
Definition rescale1 (x : R) : R := ((x - 128) / 128)%R.

Definition rescale (block_10s : tensor3) : tensor3 :=
  map (map (map rescale1)) block_10s.

Definition model_prediction (model : Model) (block_10s : tensor3)
  (threshold : R) : result (list (nat * list nat)) :=
  prediction <- predict model (rescale block_10s) ;;
  let find_label_index :=
    np_where (map (map (fun p => Rgtb p threshold)) prediction) in
  let time_index := fst find_label_index in
  let predicted_label := snd find_label_index in
  Ok (map (fun i =>
             let idx := map (Nat.eqb i) time_index in
             (i, mask_select idx predicted_label))
          (seq 0 (length block_10s))).

(** The labels selected for block [i], from the probabilities alone. *)
Definition selected (prediction : mat) (threshold : R) (i : nat) : list nat :=
  let find_label_index :=
    np_where (map (map (fun p => Rgtb p threshold)) prediction) in
  mask_select (map (Nat.eqb i) (fst find_label_index)) (snd find_label_index).

(** The columns of the true entries of a row of booleans whose columns
    are numbered from [k]. *)
Definition cols_from (k : nat) (row : list bool) : list nat :=
  map fst (filter snd (combine (seq k (length row)) row)).

(** Two models for examples: one answers the probabilities [p] for every
    block, the other answers for every block the first row it was
    given. *)
Definition constant_model (p : vec) : Model :=
  {| predict := fun x => Ok (map (fun _ => p) x) |}.

Definition echo_model : Model :=
  {| predict := fun x => Ok (map (hd []) x) |}.

(** ** Name resolution: [prediction_label] *)

(** The table read by [pd.read_csv]: its columns by name, each holding
    one cell per row; rows are numbered from 0. *)
Definition DataFrame : Type := list (string * list string).

(** [df[labels_col]] *)
Fixpoint getitem_column (df : DataFrame) (labels_col : string)
  : result (list string) :=
  match df with
  | [] => Raise KeyError
  | (name, cells) :: df' =>
      if String.eqb name labels_col then Ok cells
      else getitem_column df' labels_col
  end.

(** [series[y]] for a list [y] of row numbers: every one of them must
    be a row of the series. *)
Definition getitem_rows (series : list string) (y : list nat)
  : result (list string) :=
  mapM (fun i => match nth_error series i with
                 | Some cell => Ok cell
                 | None => Raise KeyError
                 end) y.

(** [d[k] = v] on a dict kept in insertion order. *)
Fixpoint dict_set {V : Type} (k : nat) (v : V) (d : list (nat * V))
  : list (nat * V) :=
  match d with
  | [] => [(k, v)]
  | (k', v') :: d' =>
      if (k' =? k)%nat then (k, v) :: d' else (k', v') :: dict_set k v d'
  end.

Fixpoint dict_get {V : Type} (k : nat) (d : list (nat * V)) : option V :=
  match d with
  | [] => None
  | (k', v') :: d' => if (k' =? k)%nat then Some v' else dict_get k d'
  end.

(** The dict comprehension [{x: list(series[y]) for x, y in preds}],
    continued from the dict [labels] built so far. *)
Definition label_loop (series : list string)
  (labels : result (list (nat * list string)))
  (preds : list (nat * list nat)) : result (list (nat * list string)) :=
  fold_left
    (fun (labels : result (list (nat * list string))) (xy : nat * list nat) =>
       d <- labels ;;
       names <- getitem_rows series (snd xy) ;;
       Ok (dict_set (fst xy) names d))
    preds labels.

(** [prediction_label(pathname, labels_file, labels_col, preds)], given
    the table [df] stored in the file. *)
Definition prediction_label (df : DataFrame) (labels_col : string)
  (preds : list (nat * list nat)) : result (list (nat * list string)) :=
  series <- getitem_column df labels_col ;;
  label_loop series (Ok []) preds.

(** The cell of row [j] of a series. *)
Definition name_of (series : list string) (j : nat) : string :=
  nth j series EmptyString.

(** A label table for examples. *)
Definition class_labels : DataFrame :=
  [ ("index"%string, ["0"; "1"; "2"]%string);
    ("display_name"%string, ["Speech"; "Music"; "Bark"]%string) ].

(** ** Audio loading: [audio_load] *)

(** What [audio_load] reads of the segment decoded by
    [AudioSegment.from_file]: the samples of all channels interleaved
    frame by frame, the number of channels, the number of bytes of a
    sample and the frame rate. *)
Record AudioSegment : Type := {
  get_array_of_samples : list Z;
  channels : nat;
  sample_width : nat;
  frame_rate : Z
}.

(** [song.max_possible_amplitude]: half of [2 ** (8 * sample_width)]. *)
Definition max_possible_amplitude (song : AudioSegment) : R :=
  (2 ^ (8 * sample_width song) / 2)%R.

(** [a.reshape(-1, c)] on a flat array: rows of [c] consecutive entries;
    the size must be a multiple of [c], and [c] must not be zero for the
    number of rows to be inferred. *)
Definition reshape_rows {A : Type} (a : list A) (c : nat)
  : result (list (list A)) :=
  if (c =? 0)%nat then Raise ValueError
  else if (length a mod c =? 0)%nat then
    Ok (map (fun i => firstn c (skipn (i * c) a)) (seq 0 (length a / c)))
  else Raise ValueError.

(** [audio_load(filename)], given the segment decoded from the file. *)
Definition audio_load (song : AudioSegment) : result (mat * Z) :=
  rows <- reshape_rows (get_array_of_samples song) (channels song) ;;
  let songwave :=
    map (map (fun x => (IZR x / max_possible_amplitude song)%R)) rows in
  Ok (songwave, frame_rate song).

(** A stereo segment of three frames of 16-bit samples, for examples. *)
Definition stereo_clip : AudioSegment :=
  {| get_array_of_samples := [0; 16384; -32768; 32767; 8192; -8192]%Z;
     channels := 2;
     sample_width := 2;
     frame_rate := 44100 |}.

(** ** The declared output shape of the pooling layer: [pooling_shape] *)

(** A Keras shape of rank 3; a dimension unknown when the graph is built
    is [None]. *)
Definition shape3 : Type := (option nat * option nat * option nat)%type.

(** The argument of [pooling_shape]: the list of the shapes of the
    inputs of the layer, or one shape. *)
Inductive input_shapes : Type :=
| ShapeList (l : list shape3)
| ShapeTuple (s : shape3).

(** The closure [pooling_shape] of [constrct_model]. *)
Definition pooling_shape (input_shape : input_shapes)
  : result (option nat * option nat) :=
  match input_shape with
  | ShapeList l =>
      match l with
      | [] => Raise IndexError
      | (sample_num, time_steps, freq_bins) :: _ => Ok (sample_num, freq_bins)
      end
  | ShapeTuple (sample_num, time_steps, freq_bins) =>
      Ok (sample_num, freq_bins)
  end.

(** ** Helpers of the statements *)


(** The last pair of [preds] for the block index [x], if any. *)
Definition last_for (x : nat) (preds : list (nat * list nat))
  : option (list nat) :=
  option_map snd (find (fun xy => (fst xy =? x)%nat) (rev preds)).

(** A label table with one name per class, for examples. *)
Definition wide_labels : DataFrame :=
  [("display_name"%string, repeat "sound"%string Classifier.classes_num)].

(** * Properties *)

(** ** Generic lemmas on [result] and lists *)

Lemma Ok_eq {A : Type} (a b : A) : Ok a = Ok b -> a = b.
Proof. intros H; injection H as H; exact H. Qed.

Lemma Some_eq {A : Type} (a b : A) : Some a = Some b -> a = b.
Proof. intros H; injection H as H; exact H. Qed.

Lemma mapM_ok {A B : Type} (f : A -> result B) (g : A -> B) (l : list A) :
  (forall a, In a l -> f a = Ok (g a)) -> mapM f l = Ok (map g l).
Proof.
  induction l as [|a l IH]; intros H; simpl.
  - reflexivity.
  - rewrite (H a (or_introl eq_refl)); simpl.
    rewrite IH by (intros b Hb; apply H; right; exact Hb).
    reflexivity.
Qed.

Lemma mapM_map_ok {A B C : Type} (f : B -> result C) (g : A -> B)
  (h : A -> C) (l : list A) :
  (forall a, In a l -> f (g a) = Ok (h a)) ->
  mapM f (map g l) = Ok (map h l).
Proof.
  induction l as [|a l IH]; intros H; simpl.
  - reflexivity.
  - rewrite (H a (or_introl eq_refl)); simpl.
    rewrite IH by (intros b Hb; apply H; right; exact Hb).
    reflexivity.
Qed.

Lemma mapM_length {A B : Type} (f : A -> result B) (l : list A) (bs : list B) :
  mapM f l = Ok bs -> length bs = length l.
Proof.
  revert bs; induction l as [|a l IH]; intros bs; simpl.
  - intros [= <-]; reflexivity.
  - destruct (f a) as [b|e]; simpl; [|discriminate].
    destruct (mapM f l) as [bs'|e]; simpl; [|discriminate].
    intros [= <-]; simpl; f_equal; apply IH; reflexivity.
Qed.

Lemma mapM_raise {A B : Type} (f : A -> result B) (l : list A) (e : exn) :
  (forall a, In a l -> f a = Raise e \/ exists b, f a = Ok b) ->
  (exists a, In a l /\ f a = Raise e) ->
  mapM f l = Raise e.
Proof.
  induction l as [|a l IH]; intros Hall [x [Hin Hx]].
  - destruct Hin.
  - simpl. destruct (Hall a (or_introl eq_refl)) as [Ha|[b Ha]]; rewrite Ha; simpl.
    + reflexivity.
    + destruct Hin as [<-|Hin]; [congruence|].
      rewrite IH; [reflexivity| |exists x; split; assumption].
      intros y Hy; apply Hall; right; exact Hy.
Qed.

Lemma skipn_nth_error {A : Type} (l : list A) (s : nat) (x : A) :
  nth_error l s = Some x -> skipn s l = x :: skipn (S s) l.
Proof.
  revert s; induction l as [|a l IH]; intros [|s]; simpl; try discriminate.
  - intros [= ->]; reflexivity.
  - intros H; apply IH; exact H.
Qed.

(** ** The block windower *)

Section Block.

Local Open Scope Z_scope.

Variable A : Type.
Variable features : list A.

Lemma ceil_div_lt (a b k : Z) :
  0 < b -> (k < Np.ceil_div a b <-> k * b < a).
Proof.
  intros Hb; unfold Np.ceil_div; split; intros H.
  - assert (Hq : (- a) / b < - k) by lia.
    destruct (Z_lt_ge_dec (k * b) a) as [Hlt|Hge]; [exact Hlt|exfalso].
    assert (- k <= (- a) / b) by (apply Z.div_le_lower_bound; lia).
    lia.
  - assert ((- a) / b < - k) by (apply Z.div_lt_upper_bound; lia).
    lia.
Qed.

Lemma ceil_div_1 (a : Z) : Np.ceil_div a 1 = a.
Proof. unfold Np.ceil_div; rewrite Z.div_1_r; lia. Qed.

Lemma ceil_div_nonpos (a b : Z) : 0 < b -> a <= 0 -> Np.ceil_div a b <= 0.
Proof.
  intros Hb Ha.
  destruct (Z_lt_ge_dec 0 (Np.ceil_div a b)) as [H|H]; [|lia].
  apply ceil_div_lt in H; lia.
Qed.

Lemma take1_in_range (i : nat) (x : A) :
  nth_error features i = Some x -> Np.take1 features (Z.of_nat i) = Ok x.
Proof.
  intros H; unfold Np.take1.
  assert (Hlt : (i < length features)%nat)
    by (apply nth_error_Some; congruence).
  replace ((Z.of_nat i <? - Z.of_nat (length features))
           || (Z.of_nat (length features) <=? Z.of_nat i)) with false
    by (symmetry; apply orb_false_intro; [apply Z.ltb_ge|apply Z.leb_gt]; lia).
  replace (Z.of_nat i <? 0) with false by (symmetry; apply Z.ltb_ge; lia).
  rewrite Nat2Z.id, H; reflexivity.
Qed.

(** Taking [n] consecutive rows from row [s + k0] on is a slice. *)
Lemma take_consecutive (f : nat -> Z) (s n k0 : nat) :
  (forall k, f k = Z.of_nat (s + k)) ->
  (s + k0 + n <= length features)%nat ->
  mapM (Np.take1 features) (map f (seq k0 n))
  = Ok (firstn n (skipn (s + k0) features)).
Proof.
  intros Hf; revert k0; induction n as [|n IH]; intros k0 Hlen; simpl.
  - reflexivity.
  - destruct (nth_error features (s + k0)) as [x|] eqn:Hx.
    2:{ apply nth_error_None in Hx; lia. }
    rewrite Hf, (take1_in_range _ Hx); simpl.
    rewrite IH by lia; simpl.
    rewrite (skipn_nth_error _ _ Hx); simpl.
    replace (s + S k0)%nat with (S (s + k0)) by lia; reflexivity.
Qed.

Lemma take_window (s window : Z) (index_window : list Z) :
  0 <= s -> 0 <= window -> s + window <= Z.of_nat (length features) ->
  Np.arange 0 window 1 = Ok index_window ->
  mapM (Np.take1 features) (map (fun k => k + s) index_window)
  = Ok (slice features s (s + window)).
Proof.
  intros Hs Hw Hlen; unfold Np.arange; simpl.
  intros [= <-]; rewrite Z.sub_0_r, ceil_div_1, map_map.
  unfold slice.
  replace (s + window - s) with window by lia.
  rewrite (take_consecutive (fun k => Z.of_nat k * 1 + s) (Z.to_nat s)
                            (Z.to_nat window) 0).
  - rewrite Nat.add_0_r; reflexivity.
  - intros k; lia.
  - lia.
Qed.

Lemma in_block_starts (T window hop s : Z) :
  0 < hop ->
  (In s (block_starts T window hop)
   <-> 0 <= s < T - window /\ (hop | s)).
Proof.
  intros Hhop; unfold block_starts; rewrite in_map_iff; split.
  - intros [k [<- Hk]]; apply in_seq in Hk.
    assert (Z.of_nat k < Np.ceil_div (T - window) hop) by lia.
    apply ceil_div_lt in H; [|exact Hhop].
    split; [nia|]. exists (Z.of_nat k); reflexivity.
  - intros [[H0 Hlt] [q ->]].
    assert (0 <= q) by nia.
    exists (Z.to_nat q); split; [rewrite Z2Nat.id by lia; reflexivity|].
    apply in_seq; split; [lia|]; simpl.
    assert (q < Np.ceil_div (T - window) hop)
      by (apply ceil_div_lt; [exact Hhop|exact Hlt]).
    lia.
Qed.

Lemma block_eq (window hop : Z) :
  let T := Z.of_nat (length features) in
  0 <= window -> 0 < hop ->
  block features window hop
  = Ok (map (fun s => slice features s (s + window))
            (block_starts T window hop)).
Proof.
  intros T Hw Hhop; unfold block.
  destruct (Np.arange 0 window 1) as [index_window|e] eqn:Hiw;
    [|unfold Np.arange in Hiw; simpl in Hiw; discriminate].
  simpl; unfold Np.arange at 1.
  replace (hop =? 0) with false by (symmetry; apply Z.eqb_neq; lia).
  simpl; unfold Np.take, Np.add_outer.
  rewrite Z.sub_0_r; fold T.
  change (map (fun k : nat => 0 + Z.of_nat k * hop)
              (seq 0 (Z.to_nat (Np.ceil_div (T - window) hop))))
    with (block_starts T window hop).
  apply mapM_map_ok; intros s Hs.
  apply in_block_starts in Hs; [|exact Hhop].
  apply take_window; [lia|lia|unfold T in Hs; lia|exact Hiw].
Qed.

Lemma block_starts_nil (T window hop : Z) :
  0 < hop -> T <= window -> block_starts T window hop = [].
Proof.
  intros Hhop HT; unfold block_starts.
  replace (Z.to_nat (Np.ceil_div (T - window) hop)) with 0%nat.
  - reflexivity.
  - assert (Np.ceil_div (T - window) hop <= 0)
      by (apply ceil_div_nonpos; lia).
    lia.
Qed.

End Block.

Example block_20_10_5 :
  block (ramp 20) 10 5
  = Ok [map (fun k => [k; k]) (seq 0 10); map (fun k => [k; k]) (seq 5 10)].
Proof. reflexivity. Qed.

Example block_21_10_5 :
  block (seq 0 21) 10 5 = Ok [seq 0 10; seq 5 10; seq 10 10].
Proof. reflexivity. Qed.

Example block_5_2_2 :
  block [10; 11; 12; 13; 14] 2 2 = Ok [[10; 11]; [12; 13]].
Proof. reflexivity. Qed.

Example block_hop_0 : block (ramp 20) 10 0 = Raise ZeroDivisionError.
Proof. reflexivity. Qed.

Example block_negative_hop : block (ramp 5) 10 (-2) = Raise IndexError.
Proof. reflexivity. Qed.

(** C1. For a sequence of [T] rows with [T > window] and positive
    [window] and [hop], [block] returns one block per start offset of
    [np.arange(0, T - window, hop)]: the offsets are [0, hop, 2*hop, ...],
    that is the multiples of [hop] from 0 up to but excluding
    [T - window] (a window starting exactly at [T - window] is left
    out); the block of offset [s] is the slice [s : s + window], which
    holds [window] rows. For [T = 20], [window = 10], [hop = 5] the
    offsets are 0 and 5, so there are two blocks. *)
Theorem block_windows (A : Type) (features : list A) (window hop : Z) :
  let T := Z.of_nat (length features) in
  (0 < window)%Z -> (0 < hop)%Z -> (window < T)%Z ->
  Np.arange 0 (T - window) hop = Ok (block_starts T window hop)
  /\ block features window hop
     = Ok (map (fun s => slice features s (s + window))
               (block_starts T window hop))
  /\ block_starts T window hop
     = map (fun k => (Z.of_nat k * hop)%Z)
           (seq 0 (Z.to_nat (Np.ceil_div (T - window) hop)))
  /\ (forall s, In s (block_starts T window hop)
                <-> (0 <= s < T - window)%Z /\ (hop | s)%Z)
  /\ ~ In (T - window)%Z (block_starts T window hop)
  /\ (forall s, In s (block_starts T window hop) ->
                length (slice features s (s + window)) = Z.to_nat window)
  /\ (T = 20%Z -> window = 10%Z -> hop = 5%Z ->
      block_starts T window hop = [0%Z; 5%Z]
      /\ exists b0 b5, block features window hop = Ok [b0; b5]).
Proof.
  intros T Hw Hhop HT.
  assert (Hblock : block features window hop
                   = Ok (map (fun s => slice features s (s + window))
                             (block_starts T window hop)))
    by (apply block_eq; lia).
  split.
  { unfold Np.arange, block_starts.
    replace (hop =? 0)%Z with false by (symmetry; apply Z.eqb_neq; lia).
    rewrite Z.sub_0_r; reflexivity. }
  split; [exact Hblock|].
  split; [reflexivity|].
  split; [intros s; apply in_block_starts; exact Hhop|].
  split; [intros H; apply in_block_starts in H; lia|].
  split.
  - intros s Hs; apply in_block_starts in Hs; [|exact Hhop].
    unfold slice; rewrite length_firstn, length_skipn.
    unfold T in Hs; lia.
  - intros HT20 -> ->; rewrite Hblock, HT20.
    split; [reflexivity|]; do 2 eexists; reflexivity.
Qed.

Lemma block_windows_witness :
  block (ramp 20) 10 5
  = Ok (map (fun s => slice (ramp 20) s (s + 10)) (block_starts 20 10 5))
  /\ block_starts 20 10 5 = [0%Z; 5%Z].
Proof.
  destruct (@block_windows (list nat) (ramp 20) 10 5)
    as (_ & H1 & _ & _ & _ & _ & H2); [lia | lia | simpl; lia |].
  split; [exact H1 | apply H2; reflexivity].
Defined.

(** C2 as stated fails: a sequence of 10 rows with [window = 10] is not
    rejected. *)
Lemma block_short_input_not_rejected :
  (Z.of_nat (length (ramp 10)) <= 10)%Z
  /\ block (ramp 10) 10 5 = Ok []
  /\ ~ (exists e, block (ramp 10) 10 5 = Raise e).
Proof.
  split; [simpl; lia|].
  split; [reflexivity|].
  intros [e He]; discriminate He.
Qed.

(** C2, amended. For a sequence of [T] rows with [T <= window] and
    positive [window] and [hop], [block] raises no exception: it returns
    the block tensor with no block. *)
Theorem block_short_input_empty (A : Type) (features : list A)
  (window hop : Z) :
  (0 < window)%Z -> (0 < hop)%Z ->
  (Z.of_nat (length features) <= window)%Z ->
  block features window hop = Ok [].
Proof.
  intros Hw Hhop HT.
  rewrite block_eq by lia.
  rewrite block_starts_nil by assumption.
  reflexivity.
Qed.

Lemma block_short_input_empty_witness :
  block (ramp 7) 10 5 = Ok [].
Proof.
  apply (@block_short_input_empty (list nat) (ramp 7) 10 5); simpl; lia.
Defined.

(** ** Thresholding *)

Lemma Rgtb_true_iff (x y : R) : Rgtb x y = true <-> (x > y)%R.
Proof.
  unfold Rgtb; destruct (Rgt_dec x y); split; intros H;
    try reflexivity; try assumption; try discriminate; contradiction.
Qed.

Lemma Rgtb_false_iff (x y : R) : Rgtb x y = false <-> (x <= y)%R.
Proof.
  unfold Rgtb; destruct (Rgt_dec x y); split; intros H;
    try reflexivity; try discriminate; lra.
Qed.

Section Where.

Lemma in_cols_from (row : list bool) (k j : nat) :
  In j (cols_from k row) <-> k <= j /\ nth_error row (j - k) = Some true.
Proof.
  unfold cols_from; revert k; induction row as [|b row IH]; intros k; simpl.
  - split; [intros []|intros [_ H]]. destruct (j - k); discriminate.
  - specialize (IH (S k)).
    assert (Hstep : k <= j /\ nth_error (b :: row) (j - k) = Some true <->
                    (j = k /\ b = true) \/
                    (S k <= j /\ nth_error row (j - S k) = Some true)).
    { destruct (Nat.eq_dec j k) as [->|Hne].
      - rewrite Nat.sub_diag; simpl; split.
        + intros [_ [= ->]]; left; split; reflexivity.
        + intros [[_ ->]|[H _]]; [split; [lia|reflexivity]|lia].
      - split.
        + intros [Hle H]; right; split; [lia|].
          replace (j - k) with (S (j - S k)) in H by lia; exact H.
        + intros [[H _]|[Hle H]]; [contradiction|].
          split; [lia|].
          replace (j - k) with (S (j - S k)) by lia; exact H. }
    rewrite Hstep; destruct b; simpl; rewrite IH.
    + split; [intros [<-|H]|intros [[-> _]|H]]; auto.
    + split; [intros H|intros [[_ H]|H]]; auto; discriminate.
Qed.

Lemma cols_from_sorted (row : list bool) (k : nat) :
  StronglySorted lt (cols_from k row).
Proof.
  revert k; induction row as [|b row IH]; intros k.
  - constructor.
  - assert (Htail : cols_from k (b :: row)
                    = if b then k :: cols_from (S k) row
                      else cols_from (S k) row)
      by (unfold cols_from; simpl; destruct b; reflexivity).
    rewrite Htail; destruct b; [|apply IH].
    constructor; [apply IH|].
    apply Forall_forall; intros j Hj; apply in_cols_from in Hj; lia.
Qed.

Lemma mask_select_split (i : nat) (L : list (nat * nat)) :
  mask_select (map (Nat.eqb i) (fst (split L))) (snd (split L))
  = map snd (filter (fun p => i =? fst p) L).
Proof.
  unfold mask_select; induction L as [|[a b] L IH]; simpl.
  - reflexivity.
  - destruct (split L) as [la lb]; simpl in *.
    destruct (i =? a); simpl; rewrite IH; reflexivity.
Qed.

Lemma filter_row (i i0 : nat) (E : list (nat * bool)) :
  map snd (filter (fun p : nat * nat => i =? fst p)
             (flat_map (fun jb : nat * bool =>
                          if snd jb then [(i0, fst jb)] else []) E))
  = if i =? i0 then map fst (filter snd E) else [].
Proof.
  induction E as [|[j b] E IH]; simpl.
  - destruct (i =? i0); reflexivity.
  - destruct b; simpl; [|exact IH].
    destruct (i =? i0) eqn:Hi; simpl; rewrite IH; reflexivity.
Qed.

Lemma filter_rows (i k : nat) (M : list (list bool)) :
  map snd (filter (fun p : nat * nat => i =? fst p)
             (flat_map
                (fun irow : nat * list bool =>
                   flat_map (fun jb : nat * bool =>
                               if snd jb then [(fst irow, fst jb)] else [])
                            (enumerate (snd irow)))
                (combine (seq k (length M)) M)))
  = match (if k <=? i then nth_error M (i - k) else None) with
    | Some row => cols_from 0 row
    | None => []
    end.
Proof.
  revert k; induction M as [|row M IH]; intros k; simpl.
  - destruct (k <=? i); [destruct (i - k)|]; reflexivity.
  - rewrite filter_app, map_app, filter_row, IH; cbn [fst snd].
    destruct (Nat.eqb_spec i k) as [->|Hne].
    + replace (S k <=? k) with false by (symmetry; apply Nat.leb_gt; lia).
      rewrite Nat.leb_refl, Nat.sub_diag, app_nil_r; reflexivity.
    + destruct (Nat.leb_spec k i) as [Hle|Hgt].
      * replace (S k <=? i) with true by (symmetry; apply Nat.leb_le; lia).
        replace (i - k) with (S (i - S k)) by lia; reflexivity.
      * replace (S k <=? i) with false by (symmetry; apply Nat.leb_gt; lia).
        reflexivity.
Qed.

(** The labels selected for block [i] are the columns of row [i] of the
    mask, in ascending order. *)
Lemma selected_eq (prediction : mat) (threshold : R) (i : nat) :
  selected prediction threshold i
  = match nth_error prediction i with
    | Some row => cols_from 0 (map (fun p => Rgtb p threshold) row)
    | None => []
    end.
Proof.
  unfold selected, np_where.
  rewrite mask_select_split.
  unfold enumerate at 2; rewrite filter_rows; simpl.
  rewrite Nat.sub_0_r, nth_error_map.
  destruct (nth_error prediction i) as [row|]; reflexivity.
Qed.

Lemma in_selected (prediction : mat) (threshold : R) (i j : nat) :
  In j (selected prediction threshold i)
  <-> exists row p, nth_error prediction i = Some row
                    /\ nth_error row j = Some p /\ (p > threshold)%R.
Proof.
  rewrite selected_eq; destruct (nth_error prediction i) as [row|].
  - rewrite in_cols_from, Nat.sub_0_r, nth_error_map; split.
    + intros [_ H]; destruct (nth_error row j) as [p|] eqn:Hp; [|discriminate].
      exists row, p; split; [reflexivity|]; split; [exact Hp|].
      apply Rgtb_true_iff; simpl in H; congruence.
    + intros (row' & p & [= <-] & -> & Hp); split; [lia|]; simpl.
      f_equal; apply Rgtb_true_iff; exact Hp.
  - split; [intros []|intros (row & p & H & _); discriminate].
Qed.

Lemma selected_sorted (prediction : mat) (threshold : R) (i : nat) :
  StronglySorted lt (selected prediction threshold i).
Proof.
  rewrite selected_eq; destruct (nth_error prediction i).
  - apply cols_from_sorted.
  - constructor.
Qed.

End Where.

Lemma sorted_lt_NoDup (l : list nat) : StronglySorted lt l -> NoDup l.
Proof.
  induction 1 as [|a l Hs IH Hall]; constructor; [|exact IH].
  intros Hin; rewrite Forall_forall in Hall; specialize (Hall a Hin); lia.
Qed.

Lemma model_prediction_eq (model : Model) (block_10s : tensor3)
  (threshold : R) (prediction : mat) :
  predict model (rescale block_10s) = Ok prediction ->
  model_prediction model block_10s threshold
  = Ok (map (fun i => (i, selected prediction threshold i))
            (seq 0 (length block_10s))).
Proof. intros H; unfold model_prediction; rewrite H; reflexivity. Qed.

Lemma nth_error_map_seq {B : Type} (f : nat -> B) (n i : nat) :
  i < n -> nth_error (map f (seq 0 n)) i = Some (f i).
Proof.
  intros H; rewrite nth_error_map, nth_error_seq.
  replace (i <? n) with true by (symmetry; apply Nat.ltb_lt; exact H).
  reflexivity.
Qed.

(** Decides the comparisons of an example on literal numbers. *)
Ltac decide_Rgtb :=
  repeat match goal with
    | |- context [Rgtb ?x ?y] =>
        first [ rewrite (proj2 (Rgtb_true_iff x y)) by (unfold rescale1; lra)
              | rewrite (proj2 (Rgtb_false_iff x y)) by (unfold rescale1; lra) ]
    end.

Example model_prediction_constant :
  model_prediction (constant_model [0.1; 0.2; 0.7; 0.05; 0.3]%R)
                   [[[0%R]]; [[0%R]]] 0.2
  = Ok [(0, [2; 4]); (1, [2; 4])].
Proof.
  erewrite model_prediction_eq by reflexivity.
  unfold rescale; cbn [map seq length]; rewrite !selected_eq.
  cbn [nth_error map]; decide_Rgtb; reflexivity.
Qed.

(** The raw values 192, 128 and 160 reach the model as 0.5, 0 and 0.25. *)
Example model_prediction_echo :
  model_prediction echo_model [[[192; 128; 160]%R]] 0.25 = Ok [(0, [0])].
Proof.
  erewrite model_prediction_eq by reflexivity.
  unfold rescale; cbn [map seq length hd]; rewrite !selected_eq.
  cbn [nth_error map]; decide_Rgtb; reflexivity.
Qed.

(** C5. Whenever the model answers the probability tensor [prediction],
    [model_prediction] returns, for every block index [i], the entry
    [(i, labels)] where [labels] holds exactly the class indices [j] with
    [prediction[i][j] > threshold]; the inequality is strict, so a
    probability equal to the threshold is not selected; and [labels] is
    in ascending order of class index. *)
Theorem model_prediction_selects (model : Model) (block_10s : tensor3)
  (threshold : R) (prediction : mat) :
  predict model (rescale block_10s) = Ok prediction ->
  exists top_preds,
    model_prediction model block_10s threshold = Ok top_preds
    /\ forall i, i < length block_10s ->
         exists labels,
           nth_error top_preds i = Some (i, labels)
           /\ (forall j, In j labels <->
                 exists row p, nth_error prediction i = Some row
                               /\ nth_error row j = Some p
                               /\ (p > threshold)%R)
           /\ (forall j row, nth_error prediction i = Some row ->
                 nth_error row j = Some threshold -> ~ In j labels)
           /\ StronglySorted lt labels.
Proof.
  intros Hp; eexists; split; [apply model_prediction_eq; exact Hp|].
  intros i Hi; exists (selected prediction threshold i).
  split; [exact (nth_error_map_seq
                   (fun k => (k, selected prediction threshold k)) Hi)|].
  split; [intros j; apply in_selected|].
  split; [|apply selected_sorted].
  intros j row Hrow Hj Hin; apply in_selected in Hin.
  destruct Hin as (row' & p & Hrow' & Hj' & Hgt).
  assert (p = threshold) by congruence; lra.
Qed.

Lemma model_prediction_selects_witness :
  exists top_preds,
    model_prediction echo_model [[[192; 128; 160]%R]] 0.25 = Ok top_preds
    /\ forall i, i < 1 ->
         exists labels,
           nth_error top_preds i = Some (i, labels)
           /\ (forall j, In j labels <->
                 exists row p,
                   nth_error [[rescale1 192; rescale1 128; rescale1 160]] i
                   = Some row
                   /\ nth_error row j = Some p /\ (p > 0.25)%R)
           /\ (forall j row,
                 nth_error [[rescale1 192; rescale1 128; rescale1 160]] i
                 = Some row ->
                 nth_error row j = Some 0.25%R -> ~ In j labels)
           /\ StronglySorted lt labels.
Proof.
  apply (@model_prediction_selects echo_model [[[192; 128; 160]%R]] 0.25
           [[rescale1 192; rescale1 128; rescale1 160]]).
  reflexivity.
Defined.

(** C6. Whenever the model answers a probability tensor with [N] rows,
    one per block, [model_prediction] returns exactly [N] entries whose
    block indices are [0, 1, ..., N-1] in this order; the entry of a block
    none of whose probabilities exceeds the threshold is present with
    the empty list. *)
Theorem model_prediction_complete (model : Model) (block_10s : tensor3)
  (threshold : R) (prediction : mat) :
  predict model (rescale block_10s) = Ok prediction ->
  length prediction = length block_10s ->
  exists top_preds,
    model_prediction model block_10s threshold = Ok top_preds
    /\ length top_preds = length prediction
    /\ map fst top_preds = seq 0 (length prediction)
    /\ forall i row, nth_error prediction i = Some row ->
         (forall p, In p row -> (p <= threshold)%R) ->
         nth_error top_preds i = Some (i, []).
Proof.
  intros Hp Hlen; eexists; split; [apply model_prediction_eq; exact Hp|].
  split; [rewrite length_map, length_seq; symmetry; exact Hlen|].
  split; [rewrite map_map, Hlen; apply map_id|].
  intros i row Hrow Hall.
  assert (Hi : i < length block_10s)
    by (rewrite <- Hlen; apply nth_error_Some; congruence).
  rewrite (nth_error_map_seq
             (fun k => (k, selected prediction threshold k)) Hi).
  do 2 f_equal.
  destruct (selected prediction threshold i) as [|j l] eqn:Hsel;
    [reflexivity|exfalso].
  assert (Hin : In j (selected prediction threshold i))
    by (rewrite Hsel; left; reflexivity).
  apply in_selected in Hin; destruct Hin as (row' & p & Hrow' & Hj & Hgt).
  assert (row' = row) by congruence; subst row'.
  apply nth_error_In in Hj; specialize (Hall p Hj); lra.
Qed.

Lemma model_prediction_complete_witness :
  exists top_preds,
    model_prediction (constant_model [0.1; 0.15]%R) [[[0%R]]; [[0%R]]] 0.2
    = Ok top_preds
    /\ length top_preds = 2
    /\ map fst top_preds = [0; 1]
    /\ forall i row,
         nth_error [[0.1; 0.15]%R; [0.1; 0.15]%R] i = Some row ->
         (forall p, In p row -> (p <= 0.2)%R) ->
         nth_error top_preds i = Some (i, []).
Proof.
  apply (@model_prediction_complete (constant_model [0.1; 0.15]%R)
           [[[0%R]]; [[0%R]]] 0.2 [[0.1; 0.15]%R; [0.1; 0.15]%R]);
    reflexivity.
Defined.

(** C7. For a fixed probability tensor and thresholds [t1 <= t2], every
    class index selected for a block at [t2] is selected for it at [t1],
    so the label list of the block at [t2] is not longer than at [t1]. *)
Theorem model_prediction_threshold_monotone (model : Model)
  (block_10s : tensor3) (t1 t2 : R) (prediction : mat) :
  predict model (rescale block_10s) = Ok prediction ->
  (t1 <= t2)%R ->
  exists top_preds1 top_preds2,
    model_prediction model block_10s t1 = Ok top_preds1
    /\ model_prediction model block_10s t2 = Ok top_preds2
    /\ forall i, i < length block_10s ->
         exists labels1 labels2,
           nth_error top_preds1 i = Some (i, labels1)
           /\ nth_error top_preds2 i = Some (i, labels2)
           /\ incl labels2 labels1
           /\ length labels2 <= length labels1.
Proof.
  intros Hp Ht; do 2 eexists.
  split; [apply model_prediction_eq; exact Hp|].
  split; [apply model_prediction_eq; exact Hp|].
  intros i Hi.
  exists (selected prediction t1 i), (selected prediction t2 i).
  split; [exact (nth_error_map_seq
                   (fun k => (k, selected prediction t1 k)) Hi)|].
  split; [exact (nth_error_map_seq
                   (fun k => (k, selected prediction t2 k)) Hi)|].
  assert (Hincl : incl (selected prediction t2 i) (selected prediction t1 i)).
  { intros j Hj; apply in_selected in Hj; apply in_selected.
    destruct Hj as (row & p & Hrow & Hj & Hgt).
    exists row, p; repeat split; try assumption; lra. }
  split; [exact Hincl|].
  apply NoDup_incl_length; [|exact Hincl].
  apply sorted_lt_NoDup, selected_sorted.
Qed.

Lemma model_prediction_threshold_monotone_witness :
  exists top_preds1 top_preds2,
    model_prediction (constant_model [0.1; 0.3; 0.7]%R) [[[0%R]]] 0.2
    = Ok top_preds1
    /\ model_prediction (constant_model [0.1; 0.3; 0.7]%R) [[[0%R]]] 0.5
       = Ok top_preds2
    /\ forall i, i < 1 ->
         exists labels1 labels2,
           nth_error top_preds1 i = Some (i, labels1)
           /\ nth_error top_preds2 i = Some (i, labels2)
           /\ incl labels2 labels1
           /\ length labels2 <= length labels1.
Proof.
  apply (@model_prediction_threshold_monotone
           (constant_model [0.1; 0.3; 0.7]%R) [[[0%R]]] 0.2 0.5
           [[0.1; 0.3; 0.7]%R]); [reflexivity | lra].
Defined.

Lemma get3_rescale (block_10s : tensor3) (n t c : nat) :
  get3 (rescale block_10s) n t c
  = option_map (fun x => ((x - 128) / 128)%R) (get3 block_10s n t c).
Proof.
  unfold get3, rescale; rewrite nth_error_map.
  destruct (nth_error block_10s n) as [m|]; simpl; [|reflexivity].
  rewrite nth_error_map.
  destruct (nth_error m t) as [row|]; simpl; [|reflexivity].
  rewrite nth_error_map; reflexivity.
Qed.

(** C8. [model_prediction] calls the model on one tensor, [fed], and on
    nothing else: [fed] has an entry exactly where the block tensor has
    one, and this entry is [(x - 128) / 128] for the raw entry [x]; the
    result is the thresholding of the model's answer on [fed], so it
    does not depend on what the model answers on any other tensor, the
    raw one included. *)
Theorem model_prediction_rescales (model : Model) (block_10s : tensor3)
  (threshold : R) :
  exists fed : tensor3,
    length fed = length block_10s
    /\ (forall n t c,
          get3 fed n t c
          = option_map (fun x => ((x - 128) / 128)%R) (get3 block_10s n t c))
    /\ model_prediction model block_10s threshold
       = (prediction <- predict model fed ;;
          Ok (map (fun i => (i, selected prediction threshold i))
                  (seq 0 (length block_10s))))
    /\ forall model' : Model,
         predict model' fed = predict model fed ->
         model_prediction model' block_10s threshold
         = model_prediction model block_10s threshold.
Proof.
  exists (rescale block_10s).
  split; [unfold rescale; apply length_map|].
  split; [apply get3_rescale|].
  split; [reflexivity|].
  intros model' H; unfold model_prediction; rewrite H; reflexivity.
Qed.

Lemma model_prediction_rescales_witness :
  exists fed : tensor3,
    length fed = 1
    /\ (forall n t c,
          get3 fed n t c
          = option_map (fun x => ((x - 128) / 128)%R)
                       (get3 [[[192; 128; 160]%R]] n t c))
    /\ model_prediction echo_model [[[192; 128; 160]%R]] 0.25
       = (prediction <- predict echo_model fed ;;
          Ok (map (fun i => (i, selected prediction 0.25 i)) (seq 0 1)))
    /\ forall model' : Model,
         predict model' fed = predict echo_model fed ->
         model_prediction model' [[[192; 128; 160]%R]] 0.25
         = model_prediction echo_model [[[192; 128; 160]%R]] 0.25.
Proof.
  exact (@model_prediction_rescales echo_model [[[192; 128; 160]%R]] 0.25).
Defined.

(** C10. Every list of class indices returned by [model_prediction] is
    free of duplicates. *)
Theorem model_prediction_no_duplicates (model : Model) (block_10s : tensor3)
  (threshold : R) (top_preds : list (nat * list nat)) :
  model_prediction model block_10s threshold = Ok top_preds ->
  forall i labels, In (i, labels) top_preds -> NoDup labels.
Proof.
  unfold model_prediction.
  destruct (predict model (rescale block_10s)) as [prediction|e]; simpl;
    [|discriminate].
  intros [= <-] i labels Hin; apply in_map_iff in Hin.
  destruct Hin as (i' & [= <- <-] & _).
  apply sorted_lt_NoDup, selected_sorted.
Qed.

Lemma model_prediction_no_duplicates_witness :
  model_prediction (constant_model [0.1; 0.2; 0.7; 0.05; 0.3]%R)
                   [[[0%R]]; [[0%R]]] 0.2
  = Ok [(0, [2; 4]); (1, [2; 4])]
  /\ NoDup [2; 4].
Proof.
  split; [exact model_prediction_constant|].
  apply (@model_prediction_no_duplicates
           (constant_model [0.1; 0.2; 0.7; 0.05; 0.3]%R)
           [[[0%R]]; [[0%R]]] 0.2 _ model_prediction_constant 0 [2; 4]).
  left; reflexivity.
Defined.

(** ** Name resolution *)

Section Lookup.

Variable series : list string.

Lemma getitem_rows_ok (y : list nat) :
  (forall j, In j y -> j < length series) ->
  getitem_rows series y = Ok (map (name_of series) y).
Proof.
  intros H; unfold getitem_rows; apply mapM_ok; intros j Hj.
  destruct (nth_error series j) as [cell|] eqn:Hc.
  - unfold name_of; rewrite (nth_error_nth _ _ _ Hc); reflexivity.
  - apply nth_error_None in Hc; specialize (H j Hj); lia.
Qed.

Lemma getitem_rows_raise (y : list nat) :
  (exists j, In j y /\ length series <= j) ->
  getitem_rows series y = Raise KeyError.
Proof.
  intros [j [Hj Hle]]; unfold getitem_rows; apply mapM_raise.
  - intros i _; destruct (nth_error series i) as [cell|];
      [right; exists cell; reflexivity|left; reflexivity].
  - exists j; split; [exact Hj|].
    apply nth_error_None in Hle; rewrite Hle; reflexivity.
Qed.

Lemma getitem_rows_cases (y : list nat) :
  (exists names, getitem_rows series y = Ok names)
  \/ getitem_rows series y = Raise KeyError.
Proof.
  destruct (Forall_Exists_dec (fun j => j < length series)
              (fun j => lt_dec j (length series)) y) as [Hall|Hex].
  - left; eexists; apply getitem_rows_ok; apply Forall_forall; exact Hall.
  - right; apply getitem_rows_raise; apply Exists_exists in Hex.
    destruct Hex as [j [Hj Hn]]; exists j; split; [exact Hj|lia].
Qed.

Lemma label_loop_raise (e : exn) (preds : list (nat * list nat)) :
  label_loop series (Raise e) preds = Raise e.
Proof. induction preds as [|xy preds IH]; [reflexivity|exact IH]. Qed.

Lemma dict_set_fresh {V : Type} (k : nat) (v : V) (d : list (nat * V)) :
  ~ In k (map fst d) -> dict_set k v d = d ++ [(k, v)].
Proof.
  induction d as [|[k' v'] d IH]; simpl; intros H; [reflexivity|].
  destruct (Nat.eqb_spec k' k) as [->|Hne]; [exfalso; auto|].
  rewrite IH by auto; reflexivity.
Qed.

Lemma label_loop_ok (preds : list (nat * list nat))
  (d : list (nat * list string)) :
  (forall x y j, In (x, y) preds -> In j y -> j < length series) ->
  exists labels,
    label_loop series (Ok d) preds = Ok labels
    /\ (NoDup (map fst d ++ map fst preds) ->
        labels
        = d ++ map (fun xy => (fst xy, map (name_of series) (snd xy))) preds).
Proof.
  revert d; induction preds as [|[x y] preds IH]; intros d Hall.
  - exists d; split; [reflexivity|]; intros _; rewrite app_nil_r; reflexivity.
  - unfold label_loop; simpl.
    rewrite getitem_rows_ok
      by (intros j Hj; apply (Hall x y j); [left; reflexivity|exact Hj]).
    simpl.
    destruct (IH (dict_set x (map (name_of series) y) d)) as [labels [Hl Hv]].
    { intros x' y' j Hin Hj; apply (Hall x' y' j); [right; exact Hin|exact Hj]. }
    exists labels; split; [exact Hl|].
    intros Hnd.
    assert (Hfresh : ~ In x (map fst d)).
    { intros Hin; apply NoDup_remove_2 in Hnd; apply Hnd.
      apply in_or_app; left; exact Hin. }
    rewrite (dict_set_fresh x (map (name_of series) y) d Hfresh) in Hv.
    rewrite Hv; [rewrite <- app_assoc; reflexivity|].
    rewrite map_app, <- app_assoc; exact Hnd.
Qed.

Lemma label_loop_key_error (preds : list (nat * list nat))
  (d : list (nat * list string)) :
  (exists x y j, In (x, y) preds /\ In j y /\ length series <= j) ->
  label_loop series (Ok d) preds = Raise KeyError.
Proof.
  revert d; induction preds as [|[x y] preds IH]; intros d (x0 & y0 & j & Hin & Hj & Hle).
  - destruct Hin.
  - unfold label_loop; simpl.
    destruct (getitem_rows_cases y) as [[names Hn]|Hn]; rewrite Hn; simpl.
    + apply IH. destruct Hin as [[= <- <-]|Hin].
      * rewrite getitem_rows_raise in Hn; [discriminate|].
        exists j; split; assumption.
      * exists x0, y0, j; repeat split; assumption.
    + apply label_loop_raise.
Qed.

End Lookup.

Example prediction_label_names :
  prediction_label class_labels "display_name" [(0, [0; 2]); (1, []); (2, [1])]
  = Ok [(0, ["Speech"; "Bark"]%string); (1, []); (2, ["Music"%string])].
Proof. reflexivity. Qed.

Example prediction_label_out_of_range :
  prediction_label class_labels "display_name" [(0, [0; 2]); (1, [3])]
  = Raise KeyError.
Proof. reflexivity. Qed.

Example prediction_label_no_column :
  prediction_label class_labels "mid" [(0, [0])] = Raise KeyError.
Proof. reflexivity. Qed.

(** C9. With [series] the configured column of the label table:
    when every predicted class index is the number of a row of the
    table, [prediction_label] succeeds, and (block indices being
    distinct) it maps every block index to the cells its class indices
    number, one name per index and in their order; when some predicted
    class index is not the number of a row, it fails with the lookup
    error, which pandas raises as [KeyError]. *)
Theorem prediction_label_lookup (df : DataFrame) (labels_col : string)
  (series : list string) (preds : list (nat * list nat)) :
  getitem_column df labels_col = Ok series ->
  ((forall x y j, In (x, y) preds -> In j y -> j < length series) ->
   exists labels,
     prediction_label df labels_col preds = Ok labels
     /\ (NoDup (map fst preds) ->
         labels = map (fun xy => (fst xy, map (name_of series) (snd xy))) preds
         /\ forall x y, In (x, y) preds ->
              exists names,
                dict_get x labels = Some names
                /\ length names = length y
                /\ forall k j, nth_error y k = Some j ->
                     nth_error names k = nth_error series j))
  /\ ((exists x y j, In (x, y) preds /\ In j y /\ length series <= j) ->
      prediction_label df labels_col preds = Raise KeyError).
Proof.
  intros Hcol; unfold prediction_label; rewrite Hcol; simpl; split.
  - intros Hall.
    destruct (@label_loop_ok series preds [] Hall) as [labels [Hl Hv]].
    exists labels; split; [exact Hl|].
    intros Hnd; specialize (Hv Hnd); simpl in Hv; split; [exact Hv|].
    intros x y Hin; exists (map (name_of series) y).
    split; [|split; [apply length_map|]].
    + rewrite Hv; clear Hv Hl.
      induction preds as [|[x' y'] preds IH]; [destruct Hin|].
      simpl; destruct (Nat.eqb_spec x' x) as [->|Hne].
      * destruct Hin as [[= <-]|Hin]; [reflexivity|exfalso].
        inversion Hnd as [|? ? Hnotin _]; apply Hnotin.
        apply (in_map fst) in Hin; exact Hin.
      * destruct Hin as [[= ? ?]|Hin]; [contradiction|].
        apply IH; [|inversion Hnd; assumption|exact Hin].
        intros x0 y0 j H0 Hj; apply (Hall x0 y0 j); [right; exact H0|exact Hj].
    + intros k j Hk; rewrite nth_error_map, Hk; simpl.
      assert (Hlt : j < length series)
        by (apply (Hall x y j Hin), (nth_error_In _ _ Hk)).
      unfold name_of; symmetry; apply nth_error_nth'; exact Hlt.
  - apply label_loop_key_error.
Qed.

Lemma prediction_label_lookup_witness :
  exists labels,
    prediction_label class_labels "display_name" [(0, [0; 2]); (1, [])]
    = Ok labels
    /\ (NoDup [0; 1] ->
        labels
        = map (fun xy => (fst xy,
                          map (name_of ["Speech"; "Music"; "Bark"]%string)
                              (snd xy)))
              [(0, [0; 2]); (1, [])]
        /\ forall x y, In (x, y) [(0, [0; 2]); (1, [])] ->
             exists names,
               dict_get x labels = Some names
               /\ length names = length y
               /\ forall k j, nth_error y k = Some j ->
                    nth_error names k
                    = nth_error ["Speech"; "Music"; "Bark"]%string j).
Proof.
  apply (@prediction_label_lookup class_labels "display_name"
           ["Speech"; "Music"; "Bark"]%string [(0, [0; 2]); (1, [])]
           eq_refl).
  intros x y j [[= <- <-]|[[= <- <-]|[]]] Hj; simpl in *; [|tauto].
  destruct Hj as [<-|[<-|[]]]; lia.
Defined.

(** ** The attention classifier *)

Section Tensors.

Local Open Scope R_scope.

Lemma zip_with_length {A B C : Type} (f : A -> B -> C) (a : list A)
  (b : list B) :
  length (zip_with f a b) = Nat.min (length a) (length b).
Proof.
  revert b; induction a as [|x a IH]; intros [|y b]; simpl; auto.
Qed.

Lemma nth_error_zip_with {A B C : Type} (f : A -> B -> C) (a : list A)
  (b : list B) (n : nat) :
  nth_error (zip_with f a b) n
  = match nth_error a n, nth_error b n with
    | Some x, Some y => Some (f x y)
    | _, _ => None
    end.
Proof.
  revert a b; induction n as [|n IH]; intros [|x a] [|y b]; simpl;
    try reflexivity.
  - destruct (nth_error a n); reflexivity.
  - apply IH.
Qed.

Lemma nth_zip_with {A B C : Type} (f : A -> B -> C) (a : list A)
  (b : list B) (n : nat) (da : A) (db : B) (d : C) :
  (n < length a)%nat -> (n < length b)%nat ->
  nth n (zip_with f a b) d = f (nth n a da) (nth n b db).
Proof.
  revert a b; induction n as [|n IH]; intros [|x a] [|y b]; simpl;
    intros Ha Hb; try lia; [reflexivity|].
  apply IH; lia.
Qed.

Lemma map_nth_seq {A B : Type} (g : A -> B) (l : list A) (d : A) :
  map g l = map (fun t => g (nth t l d)) (seq 0 (length l)).
Proof.
  induction l as [|a l IH]; simpl; [reflexivity|].
  rewrite <- seq_shift, map_map, <- IH; reflexivity.
Qed.

Lemma nth_map_seq {B : Type} (f : nat -> B) (n i : nat) (d : B) :
  (i < n)%nat -> nth i (map f (seq 0 n)) d = f i.
Proof.
  intros H; apply nth_error_nth.
  exact (nth_error_map_seq f H).
Qed.

Lemma nth_map_in_range {A B : Type} (g : A -> B) (l : list A) (i : nat)
  (d : A) (d' : B) :
  (i < length l)%nat -> nth i (map g l) d' = g (nth i l d).
Proof.
  intros H; rewrite (nth_indep _ d' (g d)) by (rewrite length_map; exact H).
  apply map_nth.
Qed.

Lemma sum_map_div (e : vec) (s : R) :
  K.sum (map (fun a => a / s) e) = K.sum e / s.
Proof.
  induction e as [|a e IH]; simpl.
  - unfold Rdiv; ring.
  - rewrite IH; unfold Rdiv; ring.
Qed.

Lemma sum_exp_pos (v : vec) : v <> [] -> 0 < K.sum (map exp v).
Proof.
  assert (Hnn : forall u : vec, 0 <= K.sum (map exp u)).
  { induction u as [|a u IH]; simpl; [lra|].
    pose proof (exp_pos a); lra. }
  destruct v as [|a v]; [congruence|]; intros _; simpl.
  pose proof (exp_pos a); pose proof (Hnn v); lra.
Qed.

(** [softmax] yields positive weights that sum to 1 over its vector. *)
Lemma softmax_eq (z : vec) :
  K.softmax z = map (fun x => exp x / K.sum (map exp z)) z.
Proof. unfold K.softmax; rewrite map_map; reflexivity. Qed.

Lemma softmax_sum (z : vec) : z <> [] -> K.sum (K.softmax z) = 1.
Proof.
  intros H; unfold K.softmax; rewrite sum_map_div.
  pose proof (sum_exp_pos H); field; lra.
Qed.

Lemma sigmoid1_range (x : R) : 0 < K.sigmoid1 x < 1.
Proof.
  unfold K.sigmoid1; pose proof (exp_pos (- x)) as He.
  assert (Hinv : 0 < / (1 + exp (- x))) by (apply Rinv_0_lt_compat; lra).
  assert (Hone : / (1 + exp (- x)) * (1 + exp (- x)) = 1)
    by (apply Rinv_l; lra).
  unfold Rdiv; rewrite Rmult_1_l; split; [exact Hinv|nra].
Qed.

Lemma dense_row_length_sigmoid (units : nat) (w : K.dense_weights)
  (row : vec) :
  length (K.dense_row units K.sigmoid w row) = units.
Proof.
  unfold K.dense_row, K.sigmoid; rewrite !length_map; apply length_seq.
Qed.

Lemma dense_row_length_softmax (units : nat) (w : K.dense_weights)
  (row : vec) :
  length (K.dense_row units K.softmax w row) = units.
Proof.
  unfold K.dense_row, K.softmax; rewrite !length_map; apply length_seq.
Qed.

Lemma dense_row_length_linear (units : nat) (w : K.dense_weights)
  (row : vec) :
  length (K.dense_row units K.linear w row) = units.
Proof.
  unfold K.dense_row, K.linear; rewrite !length_map; apply length_seq.
Qed.

End Tensors.

Section Pooling.

Local Open Scope R_scope.

Import Classifier.

Local Abbreviation clip_row :=
  (fun row : vec => K.clip_row row (1 / 10000000) (1 - 1 / 10000000)).

Lemma shaped_nth (T C : nat) (m : mat) (t : nat) :
  shaped T C m -> (t < T)%nat -> length (nth t m []) = C.
Proof.
  intros [Hlen Hrows] Ht; apply Hrows, nth_In; lia.
Qed.

Lemma shaped_width (T C : nat) (m : mat) :
  shaped T C m -> (0 < T)%nat -> K.width m = C.
Proof.
  intros [Hlen Hrows] HT; unfold K.width.
  destruct m as [|row m]; simpl in *; [lia|].
  apply Hrows; left; reflexivity.
Qed.

Lemma shaped_clip (T C : nat) (a : mat) :
  shaped T C a -> shaped T C (map clip_row a).
Proof.
  intros [Hlen Hrows]; split; [rewrite length_map; exact Hlen|].
  intros row Hin; apply in_map_iff in Hin; destruct Hin as [r [<- Hr]].
  unfold K.clip_row; rewrite length_map; apply Hrows; exact Hr.
Qed.

Lemma nth_clip (T C : nat) (a : mat) (t c : nat) :
  shaped T C a -> (t < T)%nat -> (c < C)%nat ->
  nth c (nth t (map clip_row a) []) 0 = clipped a t c.
Proof.
  intros Ha Ht Hc; unfold clipped.
  change (@nil R) with (clip_row []) at 1; rewrite map_nth.
  unfold K.clip_row.
  apply (nth_map_in_range
           (fun x => K.clip1 x (1 / 10000000) (1 - 1 / 10000000))).
  rewrite (shaped_nth Ha Ht); exact Hc.
Qed.

(** The column sums of the clipped weights. *)
Lemma nth_sum_clip (T C : nat) (a : mat) (c : nat) :
  shaped T C a -> (0 < T)%nat -> (c < C)%nat ->
  nth c (K.sum_axis0 (map clip_row a)) 0
  = K.sum (map (fun t' => clipped a t' c) (seq 0 (length a))).
Proof.
  intros Ha HT Hc; unfold K.sum_axis0.
  rewrite (shaped_width (shaped_clip Ha) HT), (nth_map_seq _ 0 Hc).
  rewrite (map_nth_seq _ _ []), length_map; f_equal.
  apply map_ext_in; intros t Ht; apply in_seq in Ht.
  apply (nth_clip Ha); [destruct Ha; lia|exact Hc].
Qed.

(** One sample of [attention_pooling], class by class. *)
Lemma pool_sample (T C : nat) (o a : mat) :
  (0 < T)%nat -> shaped T C o -> shaped T C a ->
  K.sum_axis0
    (zip_with (zip_with Rmult) o
       (map (fun row => zip_with Rdiv row (K.sum_axis0 (map clip_row a)))
            (map clip_row a)))
  = map (pooled o a) (seq 0 C).
Proof.
  intros HT Ho Ha.
  pose proof (shaped_clip Ha) as Hca.
  destruct Ho as [Ho_len Ho_rows], Ha as [Ha_len Ha_rows],
    Hca as [Hca_len Hca_rows].
  assert (Ho : shaped T C o) by (split; assumption).
  assert (Ha : shaped T C a) by (split; assumption).
  assert (Hca : shaped T C (map clip_row a)) by (split; assumption).
  set (ca := map clip_row a) in *.
  set (s := K.sum_axis0 ca).
  assert (Hs : length s = C).
  { unfold s, K.sum_axis0; rewrite length_map, length_seq.
    apply (shaped_width Hca HT). }
  set (natt := map (fun row => zip_with Rdiv row s) ca).
  assert (Hnatt : shaped T C natt).
  { split; [unfold natt; rewrite length_map; exact Hca_len|].
    intros row Hin; apply in_map_iff in Hin; destruct Hin as [r [<- Hr]].
    rewrite zip_with_length, Hs, (Hca_rows r Hr); apply Nat.min_id. }
  pose proof (proj1 Hnatt) as Hnatt_len.
  set (prod := zip_with (zip_with Rmult) o natt).
  assert (Hprod_len : length prod = T).
  { unfold prod; rewrite zip_with_length. rewrite Ho_len, Hnatt_len.
    apply Nat.min_id. }
  assert (Hprod_nth : forall t, (t < T)%nat ->
            nth t prod [] = zip_with Rmult (nth t o []) (nth t natt [])).
  { intros t Ht; unfold prod; apply nth_zip_with.
    - rewrite Ho_len; exact Ht.
    - rewrite Hnatt_len; exact Ht. }
  assert (Hprod : shaped T C prod).
  { split; [exact Hprod_len|].
    intros row Hin; destruct (In_nth _ _ [] Hin) as [t [Ht <-]].
    rewrite Hprod_len in Ht; rewrite (Hprod_nth t Ht), zip_with_length.
    rewrite (shaped_nth Ho Ht), (shaped_nth Hnatt Ht); apply Nat.min_id. }
  unfold K.sum_axis0 at 1; rewrite (shaped_width Hprod HT).
  apply map_ext_in; intros c Hc; apply in_seq in Hc.
  assert (Hc' : (c < C)%nat) by lia.
  unfold pooled; rewrite (map_nth_seq _ _ []), Hprod_len, Ha_len.
  f_equal; apply map_ext_in; intros t Ht; apply in_seq in Ht.
  assert (Ht' : (t < T)%nat) by lia.
  rewrite (Hprod_nth t Ht').
  rewrite (nth_zip_with Rmult _ _ 0 0 0)
    by (rewrite ?(shaped_nth Ho Ht'), ?(shaped_nth Hnatt Ht'); exact Hc').
  f_equal; unfold natt.
  change (@nil R) with ((fun row => zip_with Rdiv row s) []) at 1.
  rewrite map_nth.
  rewrite (nth_zip_with Rdiv _ _ 0 0 0)
    by (rewrite ?(shaped_nth Hca Ht'), ?Hs; exact Hc').
  unfold normalized, s, ca.
  rewrite (nth_clip Ha Ht' Hc'), (nth_sum_clip Ha HT Hc'), Ha_len.
  reflexivity.
Qed.

Lemma attention_pooling_length (out att : tensor3) :
  length out = length att ->
  length (attention_pooling out att) = length out.
Proof.
  intros H; unfold attention_pooling, K.sum_axis1, K.mul, K.div_broadcast,
    K.clip.
  rewrite length_map, !zip_with_length, !length_map, <- H.
  rewrite !Nat.min_id; reflexivity.
Qed.

Lemma attention_pooling_nth (T C : nat) (out att : tensor3) (n : nat)
  (o a : mat) :
  (0 < T)%nat ->
  nth_error out n = Some o -> nth_error att n = Some a ->
  shaped T C o -> shaped T C a ->
  nth_error (attention_pooling out att) n = Some (map (pooled o a) (seq 0 C)).
Proof.
  intros HT Hout Hatt Ho Ha.
  unfold attention_pooling, K.sum_axis1, K.mul, K.div_broadcast, K.clip.
  rewrite nth_error_map, nth_error_zip_with, Hout.
  rewrite nth_error_zip_with, !nth_error_map, Hatt; simpl.
  f_equal; apply (pool_sample HT Ho Ha).
Qed.

End Pooling.

Lemma clipped_range (w : mat) (t c : nat) :
  Classifier.clipped w t c
  = Rmax (Rmin (nth c (nth t w []) 0%R) (1 - 1 / 10000000)%R)
         (1 / 10000000)%R
  /\ (1 / 10000000 <= Classifier.clipped w t c <= 1 - 1 / 10000000)%R
  /\ ((1 / 10000000 <= nth c (nth t w []) 0 <= 1 - 1 / 10000000)%R ->
      Classifier.clipped w t c = nth c (nth t w []) 0%R).
Proof.
  unfold Classifier.clipped, K.clip1.
  set (x := nth c (nth t w []) 0%R).
  split; [reflexivity|].
  split.
  - split; [apply Rmax_r|].
    apply Rmax_lub; [apply Rmin_r|lra].
  - intros [Hlo Hhi].
    rewrite Rmin_left by exact Hhi.
    apply Rmax_left; exact Hlo.
Qed.

Section Heads.

Local Open Scope R_scope.

Import Classifier.

(** A [Dense] layer keeps the number of samples and of time steps and
    gives every row as many entries as it has units. *)
Lemma Dense_nth_error (units : nat) (activation : vec -> vec)
  (w : K.dense_weights) (a : tensor3) (n : nat) :
  nth_error (K.Dense units activation w a) n
  = option_map (map (K.dense_row units activation w)) (nth_error a n).
Proof. unfold K.Dense; apply nth_error_map. Qed.

Lemma head_cla_shaped (wc : K.dense_weights) (a : tensor3) (T n : nat)
  (o : mat) :
  (forall m, In m a -> length m = T) ->
  nth_error (head_cla wc a) n = Some o -> shaped T classes_num o.
Proof.
  intros Ha; unfold head_cla; rewrite Dense_nth_error.
  destruct (nth_error a n) as [m|] eqn:Hm; [|discriminate].
  intros [= <-]; split.
  - rewrite length_map; apply Ha, (nth_error_In _ _ Hm).
  - intros row Hin; apply in_map_iff in Hin; destruct Hin as [r [<- _]].
    apply dense_row_length_sigmoid.
Qed.

Lemma head_att_shaped (wa : K.dense_weights) (a : tensor3) (T n : nat)
  (o : mat) :
  (forall m, In m a -> length m = T) ->
  nth_error (head_att wa a) n = Some o -> shaped T classes_num o.
Proof.
  intros Ha; unfold head_att; rewrite Dense_nth_error.
  destruct (nth_error a n) as [m|] eqn:Hm; [|discriminate].
  intros [= <-]; split.
  - rewrite length_map; apply Ha, (nth_error_In _ _ Hm).
  - intros row Hin; apply in_map_iff in Hin; destruct Hin as [r [<- _]].
    apply dense_row_length_softmax.
Qed.

(** Every row of attention weights is the softmax of the row of the
    [classes_num] values the layer computes for one time step. *)
Lemma head_att_row (wa : K.dense_weights) (a : tensor3) (n t : nat)
  (m : mat) (row : vec) :
  nth_error (head_att wa a) n = Some m -> nth_error m t = Some row ->
  exists z : vec,
    length z = classes_num
    /\ row = map (fun x => exp x / K.sum (map exp z)) z
    /\ K.sum row = 1.
Proof.
  unfold head_att; rewrite Dense_nth_error.
  destruct (nth_error a n) as [m0|]; [|discriminate].
  intros [= <-]; rewrite nth_error_map.
  destruct (nth_error m0 t) as [r|]; [|discriminate].
  intros Hrow; apply Some_eq in Hrow; subst row; unfold K.dense_row.
  set (z := map _ (seq 0 classes_num)).
  assert (Hz : length z = classes_num)
    by (unfold z; rewrite length_map; apply length_seq).
  exists z; split; [exact Hz|]; split; [apply softmax_eq|].
  apply softmax_sum; intros ->; unfold classes_num in Hz; discriminate Hz.
Qed.

End Heads.

(** C3. In a head of the classifier on features [a] with [T > 0] time
    steps per sample: every row of the attention-weight tensor, that is
    the weights of one time step, is a softmax over the [classes_num]
    classes (it sums to 1 over the class axis); attention pooling
    returns one vector of [classes_num] entries per sample, whose entry
    for class [c] is the sum over the time steps [t] of the class
    activation at [(t, c)] times the weight at [(t, c)] clipped to
    [[1e-7, 1 - 1e-7]] and divided by the sum over the time steps of the
    clipped weights of class [c]. *)
Theorem attention_head (wc wa : K.dense_weights) (a : tensor3) (T : nat) :
  (0 < T)%nat ->
  (forall m, In m a -> length m = T) ->
  let cla := Classifier.head_cla wc a in
  let att := Classifier.head_att wa a in
  (forall n m t row,
      nth_error att n = Some m -> nth_error m t = Some row ->
      exists z : vec,
        length z = Classifier.classes_num
        /\ row = map (fun x => (exp x / K.sum (map exp z))%R) z
        /\ K.sum row = 1%R)
  /\ length (Classifier.attention_pooling cla att) = length a
  /\ (forall n, (n < length a)%nat ->
        exists o w,
          nth_error cla n = Some o /\ nth_error att n = Some w
          /\ Classifier.shaped T Classifier.classes_num o
          /\ Classifier.shaped T Classifier.classes_num w
          /\ nth_error (Classifier.attention_pooling cla att) n
             = Some (map (Classifier.pooled o w)
                         (seq 0 Classifier.classes_num)))
  /\ (forall o w c,
        Classifier.pooled o w c
        = K.sum (map (fun t =>
                        (nth c (nth t o []) 0
                         * (Classifier.clipped w t c
                            / K.sum (map (fun t' => Classifier.clipped w t' c)
                                         (seq 0 (length w)))))%R)
                     (seq 0 (length w)))
        /\ forall t,
             Classifier.clipped w t c
             = Rmax (Rmin (nth c (nth t w []) 0%R) (1 - 1 / 10000000)%R)
                    (1 / 10000000)%R
             /\ (1 / 10000000 <= Classifier.clipped w t c
                 <= 1 - 1 / 10000000)%R
             /\ ((1 / 10000000 <= nth c (nth t w []) 0
                  <= 1 - 1 / 10000000)%R ->
                 Classifier.clipped w t c = nth c (nth t w []) 0%R)).
Proof.
  intros HT Ha cla att.
  assert (Hlen_cla : length cla = length a)
    by (unfold cla, Classifier.head_cla, K.Dense; apply length_map).
  assert (Hlen_att : length att = length a)
    by (unfold att, Classifier.head_att, K.Dense; apply length_map).
  split; [intros n m t row; apply head_att_row|].
  split; [rewrite attention_pooling_length; congruence|].
  split; [|intros o w c; split; [reflexivity|intros t; apply clipped_range]].
  intros n Hn.
  destruct (nth_error cla n) as [o|] eqn:Ho;
    [|apply nth_error_None in Ho; lia].
  destruct (nth_error att n) as [w|] eqn:Hw;
    [|apply nth_error_None in Hw; lia].
  exists o, w.
  pose proof (head_cla_shaped _ _ _ Ha Ho) as Hso.
  pose proof (head_att_shaped _ _ _ Ha Hw) as Hsw.
  repeat (split; [first [reflexivity|assumption]|]).
  apply attention_pooling_nth with (T := T); assumption.
Qed.

Lemma attention_head_witness :
  length (Classifier.attention_pooling
            (Classifier.head_cla Classifier.zero_dense [[[1%R]; [2%R]]])
            (Classifier.head_att Classifier.zero_dense [[[1%R]; [2%R]]]))
  = 1%nat.
Proof.
  destruct (@attention_head Classifier.zero_dense Classifier.zero_dense
              [[[1%R]; [2%R]]] 2) as (_ & H & _).
  - lia.
  - intros m [<-|[]]; reflexivity.
  - exact H.
Defined.

Section Forward.

Local Open Scope R_scope.

Import Classifier.

Variable w : weights.

Lemma embedded_a2_length (x : tensor3) : length (embedded_a2 w x) = length x.
Proof.
  unfold embedded_a2, embedded_a1, K.dropout, K.Activation,
    K.BatchNormalization, K.Dense.
  rewrite !length_map; reflexivity.
Qed.

Lemma embedded_a3_length (x : tensor3) : length (embedded_a3 w x) = length x.
Proof.
  unfold embedded_a3, K.dropout, K.Activation, K.BatchNormalization, K.Dense.
  rewrite !length_map; apply embedded_a2_length.
Qed.

Lemma head_pool_length (wc wa : K.dense_weights) (a : tensor3) :
  length (attention_pooling (head_cla wc a) (head_att wa a)) = length a.
Proof.
  rewrite attention_pooling_length;
    unfold head_cla, head_att, K.Dense; rewrite !length_map; reflexivity.
Qed.

(** The graph ends with the last [Dense] layer followed by a sigmoid on
    every entry. *)
Lemma forward_eq (x : tensor3) :
  forward w x
  = map (map K.sigmoid1)
      (map (K.dense_row classes_num K.linear (dense_b1 w))
         (K.Concatenate
            (attention_pooling (head_cla (dense_cla1 w) (embedded_a2 w x))
                               (head_att (dense_att1 w) (embedded_a2 w x)))
            (attention_pooling (head_cla (dense_cla2 w) (embedded_a3 w x))
                               (head_att (dense_att2 w) (embedded_a3 w x))))).
Proof. reflexivity. Qed.

Lemma forward_length (x : tensor3) : length (forward w x) = length x.
Proof.
  rewrite forward_eq, !length_map; unfold K.Concatenate.
  rewrite zip_with_length, !head_pool_length.
  rewrite embedded_a2_length, embedded_a3_length; apply Nat.min_id.
Qed.

End Forward.

(** C4. For a block tensor of the declared input shape (blocks of 10
    rows of 128 entries) the classifier answers a probability tensor
    with one row of [classes_num] entries per block; it is the entrywise
    sigmoid of the output [b1] of the last dense layer, each entry
    depending on its own entry of [b1] alone, and every entry lies in
    [[0, 1]]. *)
Theorem classifier_output_range (w : Classifier.weights) (x : tensor3) :
  Classifier.valid_block_tensor x = true ->
  exists (prediction b1 c : mat),
    predict (Classifier.constrct_model w) x = Ok prediction
    /\ b1 = map (K.dense_row Classifier.classes_num K.linear
                   (Classifier.dense_b1 w)) c
    /\ prediction = map (map K.sigmoid1) b1
    /\ length prediction = length x
    /\ forall row, In row prediction ->
         length row = Classifier.classes_num
         /\ forall p, In p row -> (0 <= p <= 1)%R.
Proof.
  intros Hvalid; eexists; eexists; eexists.
  split; [simpl; rewrite Hvalid; reflexivity|].
  split; [reflexivity|].
  split; [apply forward_eq|].
  split; [apply forward_length|].
  intros row Hrow; rewrite forward_eq in Hrow.
  apply in_map_iff in Hrow; destruct Hrow as [b [<- Hb]].
  apply in_map_iff in Hb; destruct Hb as [r [<- _]].
  split; [rewrite length_map; apply dense_row_length_linear|].
  intros p Hp; apply in_map_iff in Hp; destruct Hp as [z [<- _]].
  pose proof (sigmoid1_range z); lra.
Qed.

Lemma classifier_output_range_witness :
  exists (prediction b1 c : mat),
    predict (Classifier.constrct_model Classifier.zero_weights)
            [Classifier.silent_block]
    = Ok prediction
    /\ b1 = map (K.dense_row Classifier.classes_num K.linear
                   (Classifier.dense_b1 Classifier.zero_weights)) c
    /\ prediction = map (map K.sigmoid1) b1
    /\ length prediction = 1%nat
    /\ forall row, In row prediction ->
         length row = Classifier.classes_num
         /\ forall p, In p row -> (0 <= p <= 1)%R.
Proof.
  apply (@classifier_output_range Classifier.zero_weights
           [Classifier.silent_block]).
  reflexivity.
Defined.

(** ** The classifier under [model_prediction] *)

Lemma valid_block_tensor_rescale (block_10s : tensor3) :
  Classifier.valid_block_tensor (rescale block_10s)
  = Classifier.valid_block_tensor block_10s.
Proof.
  unfold Classifier.valid_block_tensor, rescale.
  rewrite length_map; f_equal.
  induction block_10s as [|b x IH]; simpl; [reflexivity|].
  rewrite IH; f_equal.
  unfold Classifier.valid_block; rewrite length_map; f_equal.
  clear; induction b as [|row b IH]; simpl; [reflexivity|].
  rewrite IH, length_map; reflexivity.
Qed.

(** The classifier answers one row of probabilities per block, so the
    predictions of a valid block tensor are keyed by its block
    indices. *)
Lemma model_prediction_classifier_keys (w : Classifier.weights)
  (block_10s : tensor3) (threshold : R) :
  Classifier.valid_block_tensor block_10s = true ->
  exists top_preds,
    model_prediction (Classifier.constrct_model w) block_10s threshold
    = Ok top_preds
    /\ map fst top_preds = seq 0 (length block_10s).
Proof.
  intros Hvalid.
  assert (Hp : predict (Classifier.constrct_model w) (rescale block_10s)
               = Ok (Classifier.forward w (rescale block_10s)))
    by (simpl; rewrite valid_block_tensor_rescale, Hvalid; reflexivity).
  eexists; split; [apply (model_prediction_eq _ _ _ Hp)|].
  rewrite map_map; apply map_id.
Qed.

(** * Further properties *)

(** ** The block windower: rows, overlap, totality *)

Section BlockMore.

Local Open Scope Z_scope.

Variables A B : Type.




End BlockMore.


Section BlockRows.

Local Open Scope Z_scope.

Variable A : Type.

Lemma slice_app_last (f : list A) (x : A) (s window : Z) :
  0 <= s -> 0 <= window -> s + window <= Z.of_nat (length f) ->
  slice (f ++ [x]) s (s + window) = slice f s (s + window).
Proof.
  intros Hs Hw Hle; unfold slice.
  replace (s + window - s) with window by lia.
  rewrite skipn_app, firstn_app, length_skipn.
  replace (Z.to_nat window - (length f - Z.to_nat s))%nat with 0%nat by lia.
  rewrite firstn_O, app_nil_r; reflexivity.
Qed.

Lemma slice_length (f : list A) (s window : Z) :
  0 <= s -> 0 <= window -> s + window <= Z.of_nat (length f) ->
  length (slice f s (s + window)) = Z.to_nat window.
Proof.
  intros Hs Hw Hle; unfold slice; rewrite length_firstn, length_skipn; lia.
Qed.

Lemma block_starts_length (T window hop : Z) :
  length (block_starts T window hop)
  = Z.to_nat (Np.ceil_div (T - window) hop).
Proof. unfold block_starts; rewrite length_map; apply length_seq. Qed.

Lemma block_starts_nth (T window hop : Z) (i : nat) :
  (i < length (block_starts T window hop))%nat ->
  nth_error (block_starts T window hop) i = Some (Z.of_nat i * hop).
Proof.
  rewrite block_starts_length; intros Hi; unfold block_starts.
  exact (nth_error_map_seq (fun k => Z.of_nat k * hop) Hi).
Qed.

(** For a window that is not positive the rows of indices are empty. *)
Lemma block_nonpositive_window (features : list A) (window hop : Z) :
  window <= 0 -> 0 < hop ->
  block features window hop
  = Ok (map (fun _ => [])
            (block_starts (Z.of_nat (length features)) window hop)).
Proof.
  intros Hw Hhop; unfold block, Np.arange at 1; simpl.
  rewrite Z.sub_0_r, ceil_div_1.
  replace (Z.to_nat window) with 0%nat by lia; simpl.
  unfold Np.arange.
  replace (hop =? 0) with false by (symmetry; apply Z.eqb_neq; lia).
  simpl; rewrite Z.sub_0_r; unfold Np.take, Np.add_outer; simpl.
  change (map (fun k : nat => 0 + Z.of_nat k * hop)
              (seq 0 (Z.to_nat (Np.ceil_div
                                  (Z.of_nat (length features) - window) hop))))
    with (block_starts (Z.of_nat (length features)) window hop).
  apply mapM_map_ok; intros s _; reflexivity.
Qed.

End BlockRows.

(** X2. The last row of the sequence never reaches a block: with a
    positive hop, two sequences that differ in their last row only have
    the same blocks. *)
Theorem block_ignores_last_row (A : Type) (features : list A) (x y : A)
  (window hop : Z) :
  (0 < hop)%Z ->
  block (features ++ [x]) window hop = block (features ++ [y]) window hop.
Proof.
  intros Hhop.
  assert (Hlen : forall z : A,
             length (features ++ [z]) = S (length features))
    by (intros z; rewrite length_app; simpl; lia).
  destruct (Z_lt_ge_dec 0 window) as [Hw|Hw].
  - rewrite !block_eq by lia; rewrite !Hlen; f_equal.
    apply map_ext_in; intros s Hs.
    apply in_block_starts in Hs; [|exact Hhop]; destruct Hs as [Hs _].
    rewrite (@slice_app_last A features x s window) by lia.
    rewrite (@slice_app_last A features y s window) by lia.
    reflexivity.
  - rewrite !block_nonpositive_window by lia; rewrite !Hlen; reflexivity.
Qed.

Lemma block_ignores_last_row_witness :
  block ([[1; 1]; [2; 2]; [3; 3]; [4; 4]] ++ [[5; 5]]) 2 1
  = block ([[1; 1]; [2; 2]; [3; 3]; [4; 4]] ++ [[9; 9]]) 2 1.
Proof.
  apply (@block_ignores_last_row (list nat)
           [[1; 1]; [2; 2]; [3; 3]; [4; 4]] [5; 5] [9; 9] 2 1).
  lia.
Defined.

(** X3. Consecutive blocks overlap: with [0 < hop <= window], a block
    without its first [hop] rows is the start of the next block, of
    [window - hop] rows. *)
Theorem block_overlap (A : Type) (features : list A) (window hop : Z)
  (blocks : list (list A)) (i : nat) (b b' : list A) :
  (0 < hop)%Z -> (hop <= window)%Z ->
  block features window hop = Ok blocks ->
  nth_error blocks i = Some b ->
  nth_error blocks (S i) = Some b' ->
  skipn (Z.to_nat hop) b = firstn (Z.to_nat (window - hop)) b'.
Proof.
  intros Hhop Hw Hblock Hb Hb'.
  rewrite block_eq in Hblock by lia; injection Hblock as <-.
  set (T := Z.of_nat (length features)) in *.
  rewrite nth_error_map in Hb, Hb'.
  assert (Hi' : (S i < length (block_starts T window hop))%nat).
  { apply nth_error_Some; intros Hn; rewrite Hn in Hb'; discriminate. }
  rewrite block_starts_nth in Hb, Hb' by lia.
  remember (Z.of_nat i * hop)%Z as s eqn:Hs.
  remember (Z.of_nat (S i) * hop)%Z as s' eqn:Hs'.
  assert (Hnat : Z.to_nat s' = (Z.to_nat hop + Z.to_nat s)%nat) by nia.
  assert (Hbs : b = slice features s (s + window))
    by (unfold option_map in Hb; congruence).
  assert (Hbs' : b' = slice features s' (s' + window))
    by (unfold option_map in Hb'; congruence).
  rewrite Hbs, Hbs'; unfold slice.
  replace (s + window - s)%Z with window by lia.
  replace (s' + window - s')%Z with window by lia.
  rewrite skipn_firstn_comm, skipn_skipn, firstn_firstn, Hnat.
  f_equal; lia.
Qed.

Lemma block_overlap_witness :
  skipn (Z.to_nat 2) [10; 11; 12] = firstn (Z.to_nat (3 - 2)) [12; 13; 14].
Proof.
  apply (@block_overlap nat [10; 11; 12; 13; 14; 15] 3 2
           [[10; 11; 12]; [12; 13; 14]] 0 [10; 11; 12] [12; 13; 14]);
    [lia | lia | reflexivity | reflexivity | reflexivity].
Defined.

(** X4. [block] fails exactly on a zero hop among the hops that are not
    negative: a zero hop raises [ZeroDivisionError] whatever the
    sequence and the window; a positive hop never raises, gives
    [ceil((T - window) / hop)] blocks (none exactly when
    [T <= window]), and every block has [window] rows (no row when the
    window is not positive). *)
Theorem block_total (A : Type) (features : list A) (window hop : Z) :
  let T := Z.of_nat (length features) in
  (hop = 0%Z -> block features window hop = Raise ZeroDivisionError)
  /\ ((0 < hop)%Z ->
      exists blocks,
        block features window hop = Ok blocks
        /\ length blocks = Z.to_nat (Np.ceil_div (T - window) hop)
        /\ (blocks = [] <-> (T <= window)%Z)
        /\ forall b, In b blocks -> length b = Z.to_nat window).
Proof.
  intros T; split.
  - intros ->; unfold block, Np.arange; simpl; reflexivity.
  - intros Hhop.
    assert (Hnil : forall B (f : Z -> B),
               map f (block_starts T window hop) = [] <-> (T <= window)%Z).
    { intros B f; split.
      - intros H; apply (f_equal (@length B)) in H.
        rewrite length_map, block_starts_length in H; simpl in H.
        destruct (Z_lt_ge_dec window T) as [Hlt|Hge]; [exfalso|lia].
        assert (0 < Np.ceil_div (T - window) hop)%Z
          by (apply ceil_div_lt; lia).
        lia.
      - intros H; rewrite block_starts_nil by assumption; reflexivity. }
    destruct (Z_lt_ge_dec 0 window) as [Hw|Hw].
    + eexists; split; [apply block_eq; lia|].
      split; [rewrite length_map; apply block_starts_length|].
      split; [apply Hnil|].
      intros b Hb; apply in_map_iff in Hb; destruct Hb as [s [<- Hs]].
      apply in_block_starts in Hs; [|exact Hhop]; destruct Hs as [Hs _].
      apply slice_length; unfold T in Hs; lia.
    + eexists; split; [apply block_nonpositive_window; lia|].
      split; [rewrite length_map; apply block_starts_length|].
      split; [apply Hnil|].
      intros b Hb; apply in_map_iff in Hb; destruct Hb as [s [<- _]].
      simpl; lia.
Qed.

Lemma block_total_witness :
  exists blocks,
    block (ramp 21) 10 5 = Ok blocks
    /\ length blocks = Z.to_nat (Np.ceil_div (21 - 10) 5)
    /\ (blocks = [] <-> (21 <= 10)%Z)
    /\ forall b, In b blocks -> length b = Z.to_nat 10.
Proof.
  apply (proj2 (@block_total (list nat) (ramp 21) 10 5)); lia.
Defined.

(** ** Audio loading *)

Section Reshape.

Variable A : Type.

Lemma firstn_plus (x y : nat) (l : list A) :
  firstn (x + y) l = firstn x l ++ firstn y (skipn x l).
Proof.
  revert l; induction x as [|x IH]; intros l; simpl; [reflexivity|].
  destruct l as [|a l]; simpl; [rewrite firstn_nil; reflexivity|].
  rewrite IH; reflexivity.
Qed.

(** The rows cut by [reshape_rows] are consecutive. *)
Lemma concat_rows (a : list A) (c n k : nat) :
  concat (map (fun i => firstn c (skipn (i * c) a)) (seq k n))
  = firstn (n * c) (skipn (k * c) a).
Proof.
  revert k; induction n as [|n IH]; intros k; simpl; [reflexivity|].
  rewrite IH, firstn_plus, skipn_skipn.
  replace (c + k * c) with (S k * c) by lia; reflexivity.
Qed.

Lemma reshape_rows_ok (a : list A) (c n : nat) :
  0 < c -> length a = n * c ->
  reshape_rows a c
  = Ok (map (fun i => firstn c (skipn (i * c) a)) (seq 0 n)).
Proof.
  intros Hc Hlen; unfold reshape_rows.
  replace (c =? 0) with false by (symmetry; apply Nat.eqb_neq; lia).
  rewrite Hlen, Nat.Div0.mod_mul, Nat.div_mul by lia; reflexivity.
Qed.

Lemma reshape_rows_cases (a : list A) (c : nat) :
  (c <> 0 /\ length a mod c = 0
   /\ reshape_rows a c
      = Ok (map (fun i => firstn c (skipn (i * c) a))
                (seq 0 (length a / c))))
  \/ ((c = 0 \/ length a mod c <> 0) /\ reshape_rows a c = Raise ValueError).
Proof.
  unfold reshape_rows.
  destruct (Nat.eqb_spec c 0) as [->|Hc]; [right; split; auto|].
  destruct (Nat.eqb_spec (length a mod c) 0) as [Hm|Hm].
  - left; repeat split; assumption.
  - right; split; auto.
Qed.

Lemma row_shape (a : list A) (c n i : nat) :
  length a = n * c -> i < n ->
  length (firstn c (skipn (i * c) a)) = c.
Proof.
  intros Hlen Hi; rewrite length_firstn, length_skipn; nia.
Qed.

Lemma row_entry (a : list A) (c i ch : nat) (d : A) :
  ch < c ->
  nth ch (firstn c (skipn (i * c) a)) d = nth (i * c + ch) a d.
Proof.
  intros Hch; rewrite nth_firstn.
  replace (ch <? c) with true by (symmetry; apply Nat.ltb_lt; exact Hch).
  apply nth_skipn.
Qed.

Lemma in_row (a : list A) (c i : nat) (x : A) :
  In x (firstn c (skipn (i * c) a)) -> In x a.
Proof.
  intros H.
  rewrite <- (firstn_skipn (i * c) a); apply in_or_app; right.
  rewrite <- (firstn_skipn c (skipn (i * c) a)); apply in_or_app; left.
  exact H.
Qed.

End Reshape.

Section Audio.

Local Open Scope R_scope.

Variable song : AudioSegment.

Lemma max_possible_amplitude_pos : 0 < max_possible_amplitude song.
Proof.
  unfold max_possible_amplitude.
  assert (0 < 2 ^ (8 * sample_width song)) by (apply pow_lt; lra).
  lra.
Qed.

Lemma max_possible_amplitude_bits :
  (0 < sample_width song)%nat ->
  max_possible_amplitude song
  = IZR (2 ^ (8 * Z.of_nat (sample_width song) - 1)).
Proof.
  intros Hsw; unfold max_possible_amplitude.
  destruct (8 * sample_width song)%nat as [|k] eqn:Hk; [lia|].
  replace (8 * Z.of_nat (sample_width song) - 1)%Z with (Z.of_nat k) by lia.
  rewrite <- pow_IZR; simpl; field.
Qed.

Lemma audio_load_eq (rows : list (list Z)) :
  reshape_rows (get_array_of_samples song) (channels song) = Ok rows ->
  audio_load song
  = Ok (map (map (fun x => IZR x / max_possible_amplitude song)) rows,
        frame_rate song).
Proof. intros H; unfold audio_load; rewrite H; reflexivity. Qed.

End Audio.

Example audio_load_stereo :
  audio_load stereo_clip
  = Ok ([[0 / max_possible_amplitude stereo_clip;
          16384 / max_possible_amplitude stereo_clip];
         [-32768 / max_possible_amplitude stereo_clip;
          32767 / max_possible_amplitude stereo_clip];
         [8192 / max_possible_amplitude stereo_clip;
          -8192 / max_possible_amplitude stereo_clip]]%R, 44100%Z).
Proof. reflexivity. Qed.

(** X5. For a segment of [n] frames of a positive number of channels
    [audio_load] returns the frame rate of the segment and a waveform of
    [n] rows, one per frame, of one entry per channel: the entry of
    frame [i] and channel [ch] is sample [i * channels + ch] of the
    interleaved samples divided by the largest possible amplitude. *)
Theorem audio_load_frames (song : AudioSegment) (n : nat) :
  0 < channels song ->
  length (get_array_of_samples song) = n * channels song ->
  exists songwave,
    audio_load song = Ok (songwave, frame_rate song)
    /\ length songwave = n
    /\ (forall row, In row songwave -> length row = channels song)
    /\ forall i ch, i < n -> ch < channels song ->
         nth ch (nth i songwave []) 0%R
         = (IZR (nth (i * channels song + ch) (get_array_of_samples song) 0%Z)
            / max_possible_amplitude song)%R.
Proof.
  intros Hc Hlen.
  eexists; split;
    [apply audio_load_eq, reshape_rows_ok; [exact Hc|exact Hlen]|].
  split; [rewrite !length_map; apply length_seq|].
  split.
  - intros row Hrow; apply in_map_iff in Hrow; destruct Hrow as [r [<- Hr]].
    apply in_map_iff in Hr; destruct Hr as [i [<- Hi]]; apply in_seq in Hi.
    rewrite length_map; apply row_shape with (n := n); [exact Hlen|lia].
  - intros i ch Hi Hch.
    rewrite nth_map_in_range with (d := [])
      by (rewrite length_map, length_seq; lia).
    rewrite nth_map_seq by exact Hi.
    rewrite nth_map_in_range with (d := 0%Z)
      by (rewrite row_shape with (n := n); assumption).
    rewrite row_entry by exact Hch; reflexivity.
Qed.

Lemma audio_load_frames_witness :
  exists songwave,
    audio_load stereo_clip = Ok (songwave, 44100%Z)
    /\ length songwave = 3
    /\ (forall row, In row songwave -> length row = 2)
    /\ forall i ch, i < 3 -> ch < 2 ->
         nth ch (nth i songwave []) 0%R
         = (IZR (nth (i * 2 + ch) (get_array_of_samples stereo_clip) 0%Z)
            / max_possible_amplitude stereo_clip)%R.
Proof.
  apply (@audio_load_frames stereo_clip 3); [simpl; lia | reflexivity].
Defined.

(** X6. When every sample fits the signed range of the sample width,
    [- 2^(8w-1) <= s < 2^(8w-1)] for [w > 0] bytes, every entry of the
    waveform [audio_load] returns lies in [[-1, 1)]. *)
Theorem audio_load_range (song : AudioSegment) (songwave : mat) (rate : Z) :
  0 < sample_width song ->
  (forall s, In s (get_array_of_samples song) ->
     (- 2 ^ (8 * Z.of_nat (sample_width song) - 1) <= s
      < 2 ^ (8 * Z.of_nat (sample_width song) - 1))%Z) ->
  audio_load song = Ok (songwave, rate) ->
  forall row v, In row songwave -> In v row -> (-1 <= v < 1)%R.
Proof.
  intros Hsw Hrange Hload row v Hrow Hv.
  destruct (reshape_rows_cases (get_array_of_samples song) (channels song))
    as [(_ & _ & Hrows)|[_ Hrows]];
    [|unfold audio_load in Hload; rewrite Hrows in Hload; discriminate].
  rewrite (audio_load_eq _ Hrows) in Hload; injection Hload as <- _.
  apply in_map_iff in Hrow; destruct Hrow as [r [<- Hr]].
  apply in_map_iff in Hr; destruct Hr as [i [<- _]].
  apply in_map_iff in Hv; destruct Hv as [s [<- Hs]].
  apply in_row in Hs; specialize (Hrange s Hs).
  pose proof (max_possible_amplitude_pos song) as Hpos.
  rewrite (max_possible_amplitude_bits song Hsw) in *.
  set (amp := (2 ^ (8 * Z.of_nat (sample_width song) - 1))%Z) in *.
  destruct Hrange as [Hlo Hhi].
  apply IZR_le in Hlo; apply IZR_lt in Hhi; rewrite opp_IZR in Hlo.
  split.
  - apply Rmult_le_reg_r with (IZR amp); [exact Hpos|].
    unfold Rdiv; rewrite Rmult_assoc, Rinv_l by lra; lra.
  - apply Rmult_lt_reg_r with (IZR amp); [exact Hpos|].
    unfold Rdiv; rewrite Rmult_assoc, Rinv_l by lra; lra.
Qed.

Lemma audio_load_range_witness :
  audio_load stereo_clip
  = Ok ([[0 / max_possible_amplitude stereo_clip;
          16384 / max_possible_amplitude stereo_clip];
         [-32768 / max_possible_amplitude stereo_clip;
          32767 / max_possible_amplitude stereo_clip];
         [8192 / max_possible_amplitude stereo_clip;
          -8192 / max_possible_amplitude stereo_clip]]%R, 44100%Z)
  /\ (-1 <= -32768 / max_possible_amplitude stereo_clip < 1)%R.
Proof.
  split; [reflexivity|].
  apply (@audio_load_range stereo_clip _ 44100%Z
           ltac:(simpl; lia)
           ltac:(intros s Hs; simpl in Hs;
                 repeat (destruct Hs as [<-|Hs]; [simpl; lia|]);
                 destruct Hs)
           eq_refl
           [-32768 / max_possible_amplitude stereo_clip;
            32767 / max_possible_amplitude stereo_clip]%R);
    simpl; auto.
Defined.

(** X7. [audio_load] fails exactly when the samples cannot be cut into
    frames: with no channel, or with a number of samples that is not a
    multiple of the number of channels, it raises [ValueError];
    otherwise it returns one row per frame. *)
Theorem audio_load_frames_or_error (song : AudioSegment) :
  let size := length (get_array_of_samples song) in
  ((channels song = 0 \/ size mod channels song <> 0) ->
   audio_load song = Raise ValueError)
  /\ (channels song <> 0 -> size mod channels song = 0 ->
      exists songwave,
        audio_load song = Ok (songwave, frame_rate song)
        /\ length songwave = size / channels song).
Proof.
  intros size; unfold size; clear size.
  destruct (reshape_rows_cases (get_array_of_samples song) (channels song))
    as [(Hc & Hm & Hrows)|[Hbad Hrows]]; split.
  - intros [H|H]; contradiction.
  - intros _ _; eexists; split; [apply audio_load_eq, Hrows|].
    rewrite !length_map; apply length_seq.
  - intros _; unfold audio_load; rewrite Hrows; reflexivity.
  - intros Hc Hm; destruct Hbad; contradiction.
Qed.

Lemma audio_load_frames_or_error_witness :
  audio_load {| get_array_of_samples := [1; 2; 3]%Z; channels := 2;
                sample_width := 2; frame_rate := 8000 |}
  = Raise ValueError.
Proof.
  apply (proj1 (@audio_load_frames_or_error
                  {| get_array_of_samples := [1; 2; 3]%Z; channels := 2;
                     sample_width := 2; frame_rate := 8000 |})).
  right; simpl; lia.
Defined.

(** X8. Nothing of the segment is lost: the rows of the waveform, read
    one after the other and multiplied by the largest possible
    amplitude, are the samples of the segment, and the rate returned is
    its frame rate. *)
Theorem audio_load_round_trip (song : AudioSegment) (songwave : mat)
  (rate : Z) :
  audio_load song = Ok (songwave, rate) ->
  rate = frame_rate song
  /\ map (fun v => (v * max_possible_amplitude song)%R) (concat songwave)
     = map IZR (get_array_of_samples song).
Proof.
  intros Hload.
  destruct (reshape_rows_cases (get_array_of_samples song) (channels song))
    as [(Hc & Hm & Hrows)|[_ Hrows]];
    [|unfold audio_load in Hload; rewrite Hrows in Hload; discriminate].
  rewrite (audio_load_eq _ Hrows) in Hload; injection Hload as <- <-.
  split; [reflexivity|].
  rewrite <- concat_map, concat_rows, skipn_O, firstn_all2.
  - rewrite map_map; apply map_ext; intros x.
    pose proof (max_possible_amplitude_pos song); field; lra.
  - pose proof (Nat.div_mod_eq (length (get_array_of_samples song))
                               (channels song)); lia.
Qed.

Lemma audio_load_round_trip_witness :
  44100%Z = frame_rate stereo_clip
  /\ map (fun v => (v * max_possible_amplitude stereo_clip)%R)
         (concat [[0 / max_possible_amplitude stereo_clip;
                   16384 / max_possible_amplitude stereo_clip];
                  [-32768 / max_possible_amplitude stereo_clip;
                   32767 / max_possible_amplitude stereo_clip];
                  [8192 / max_possible_amplitude stereo_clip;
                   -8192 / max_possible_amplitude stereo_clip]]%R)
     = map IZR (get_array_of_samples stereo_clip).
Proof.
  apply (@audio_load_round_trip stereo_clip); reflexivity.
Defined.

(** ** Attention pooling is a weighted mean *)

Section PoolingMean.

Local Open Scope R_scope.

Import Classifier.









Lemma attention_pooling_in (out att : tensor3) (row : vec) :
  In row (attention_pooling out att) ->
  exists n o a,
    nth_error out n = Some o /\ nth_error att n = Some a
    /\ nth_error (attention_pooling out att) n = Some row.
Proof.
  intros Hin; destruct (In_nth_error _ _ Hin) as [n Hn]; exists n.
  revert Hn.
  unfold attention_pooling, K.sum_axis1, K.mul, K.div_broadcast, K.clip.
  rewrite nth_error_map, nth_error_zip_with.
  destruct (nth_error out n) as [o|]; [|discriminate].
  rewrite nth_error_zip_with, !nth_error_map.
  destruct (nth_error att n) as [a|]; [|discriminate].
  intros H; exists o, a; repeat split; exact H.
Qed.



End PoolingMean.



Section HeadRange.

Local Open Scope R_scope.

Import Classifier.




End HeadRange.


(** X12. The shape [pooling_shape] declares for the pooling layer is
    the shape [attention_pooling] produces: for class activations and
    attention weights of shape (N, T, C) with [T > 0], given as the list
    of the two input shapes or as one shape, it declares (N, C), and the
    pooled tensor has [N] rows of [C] entries. The empty list of shapes
    raises [IndexError]. *)
Theorem pooling_shape_sound (N T C : nat) (out att : tensor3) :
  (0 < T)%nat ->
  length out = N -> length att = N ->
  (forall o, In o out -> Classifier.shaped T C o) ->
  (forall a, In a att -> Classifier.shaped T C a) ->
  let s := (Some N, Some T, Some C) in
  pooling_shape (ShapeList [s; s])
  = Ok (Some (length (Classifier.attention_pooling out att)), Some C)
  /\ pooling_shape (ShapeTuple s) = pooling_shape (ShapeList [s; s])
  /\ (forall row, In row (Classifier.attention_pooling out att) ->
        length row = C)
  /\ pooling_shape (ShapeList []) = Raise IndexError.
Proof.
  intros HT Hout Hatt Hso Hsa s.
  rewrite attention_pooling_length by congruence.
  split; [simpl; rewrite Hout; reflexivity|].
  split; [reflexivity|].
  split; [|reflexivity].
  intros row Hrow; apply attention_pooling_in in Hrow.
  destruct Hrow as (n & o & a & Ho & Ha & Hn).
  rewrite (@attention_pooling_nth T C out att n o a) in Hn.
  - injection Hn as <-; rewrite length_map; apply length_seq.
  - exact HT.
  - exact Ho.
  - exact Ha.
  - apply Hso, (nth_error_In _ _ Ho).
  - apply Hsa, (nth_error_In _ _ Ha).
Qed.

Lemma pooling_shape_sound_witness :
  pooling_shape (ShapeList [(Some 1, Some 2, Some 2); (Some 1, Some 2, Some 2)])
  = Ok (Some (length (Classifier.attention_pooling
                        [[[0.2; 0.9]; [0.4; 0.5]]%R] [[[0; 1]; [1; 0]]%R])),
        Some 2).
Proof.
  apply (@pooling_shape_sound 1 2 2
           [[[0.2; 0.9]; [0.4; 0.5]]%R] [[[0; 1]; [1; 0]]%R]).
  - lia.
  - reflexivity.
  - reflexivity.
  - intros o [<-|[]]; split; [reflexivity|].
    intros row [<-|[<-|[]]]; reflexivity.
  - intros a [<-|[]]; split; [reflexivity|].
    intros row [<-|[<-|[]]]; reflexivity.
Defined.

(** ** The classifier under [model_prediction] and [block] *)

Section ClassifierLabels.

Import Classifier.

Variable w : weights.

Lemma predict_classifier (x : tensor3) (prediction : mat) :
  predict (constrct_model w) x = Ok prediction ->
  valid_block_tensor x = true /\ prediction = forward w x.
Proof.
  simpl; destruct (valid_block_tensor x); [|discriminate].
  intros [= <-]; split; reflexivity.
Qed.

Lemma forward_row (x : tensor3) (row : vec) :
  In row (forward w x) ->
  length row = classes_num
  /\ forall p, In p row -> (0 < p < 1)%R.
Proof.
  rewrite forward_eq; intros Hrow.
  apply in_map_iff in Hrow; destruct Hrow as [b [<- Hb]].
  apply in_map_iff in Hb; destruct Hb as [r [<- _]].
  split; [rewrite length_map; apply dense_row_length_linear|].
  intros p Hp; apply in_map_iff in Hp; destruct Hp as [z [<- _]].
  apply sigmoid1_range.
Qed.

Lemma cols_from_all (row : list bool) (k : nat) :
  (forall b, In b row -> b = true) -> cols_from k row = seq k (length row).
Proof.
  unfold cols_from; revert k; induction row as [|b row IH]; intros k H;
    simpl; [reflexivity|].
  rewrite (H b (or_introl eq_refl)); simpl; f_equal.
  apply IH; intros b' Hb'; apply H; right; exact Hb'.
Qed.

Lemma cols_from_none (row : list bool) (k : nat) :
  (forall b, In b row -> b = false) -> cols_from k row = [].
Proof.
  unfold cols_from; revert k; induction row as [|b row IH]; intros k H;
    simpl; [reflexivity|].
  rewrite (H b (or_introl eq_refl)); simpl.
  apply IH; intros b' Hb'; apply H; right; exact Hb'.
Qed.

(** What [model_prediction] returns with the classifier as its model. *)
Lemma model_prediction_classifier (block_10s : tensor3) (threshold : R)
  (top_preds : list (nat * list nat)) :
  model_prediction (constrct_model w) block_10s threshold = Ok top_preds ->
  valid_block_tensor block_10s = true
  /\ top_preds
     = map (fun i => (i, selected (forward w (rescale block_10s)) threshold i))
           (seq 0 (length block_10s)).
Proof.
  unfold model_prediction.
  destruct (predict (constrct_model w) (rescale block_10s))
    as [prediction|e] eqn:Hp; simpl; [|discriminate].
  apply predict_classifier in Hp; destruct Hp as [Hvalid ->].
  rewrite valid_block_tensor_rescale in Hvalid.
  intros H; apply Ok_eq in H; subst top_preds.
  split; [exact Hvalid|reflexivity].
Qed.

Lemma forward_nth (x : tensor3) (i : nat) :
  i < length x -> exists row, nth_error (forward w x) i = Some row.
Proof.
  intros Hi; destruct (nth_error (forward w x) i) as [row|] eqn:H;
    [exists row; reflexivity|].
  apply nth_error_None in H; rewrite forward_length in H; lia.
Qed.

End ClassifierLabels.

(** X13. The labels the classifier predicts are class numbers: every
    class index returned by [model_prediction] with the model of
    [constrct_model] is below [classes_num] = 527. *)
Theorem classifier_labels_below_classes_num (w : Classifier.weights)
  (block_10s : tensor3) (threshold : R) (top_preds : list (nat * list nat)) :
  model_prediction (Classifier.constrct_model w) block_10s threshold
  = Ok top_preds ->
  forall i labels j,
    In (i, labels) top_preds -> In j labels -> j < Classifier.classes_num.
Proof.
  intros Hmp i labels j Hin Hj.
  apply model_prediction_classifier in Hmp; destruct Hmp as [_ ->].
  apply in_map_iff in Hin; destruct Hin as (i' & [= <- <-] & _).
  apply in_selected in Hj; destruct Hj as (row & p & Hrow & Hp & _).
  apply nth_error_In, forward_row in Hrow; destruct Hrow as [Hlen _].
  rewrite <- Hlen; apply nth_error_Some; congruence.
Qed.

(** X14. With the classifier as its model, a threshold of 1 or more
    selects no class for any block, and a negative threshold selects
    every class, [0 .. classes_num - 1], for every block. *)
Theorem classifier_threshold_extremes (w : Classifier.weights)
  (block_10s : tensor3) (threshold : R) (top_preds : list (nat * list nat)) :
  model_prediction (Classifier.constrct_model w) block_10s threshold
  = Ok top_preds ->
  ((1 <= threshold)%R ->
   forall i labels, In (i, labels) top_preds -> labels = [])
  /\ ((threshold < 0)%R ->
      forall i labels, In (i, labels) top_preds ->
        labels = seq 0 Classifier.classes_num).
Proof.
  intros Hmp.
  apply model_prediction_classifier in Hmp; destruct Hmp as [_ ->].
  split; intros Ht i labels Hin;
    apply in_map_iff in Hin; destruct Hin as (i' & [= <- <-] & Hi);
    apply in_seq in Hi; rewrite selected_eq;
    destruct (@forward_nth w (rescale block_10s) i') as [row Hrow];
    try (unfold rescale; rewrite length_map; lia);
    rewrite Hrow;
    apply nth_error_In, forward_row in Hrow; destruct Hrow as [Hlen Hrange].
  - apply cols_from_none; intros b Hb.
    apply in_map_iff in Hb; destruct Hb as [p [<- Hp]].
    apply Rgtb_false_iff; specialize (Hrange p Hp); lra.
  - rewrite <- Hlen, <- (length_map (fun p => Rgtb p threshold) row).
    apply cols_from_all; intros b Hb.
    apply in_map_iff in Hb; destruct Hb as [p [<- Hp]].
    apply Rgtb_true_iff; specialize (Hrange p Hp); lra.
Qed.

Lemma classifier_labels_below_classes_num_witness :
  exists top_preds,
    model_prediction (Classifier.constrct_model Classifier.zero_weights)
                     [Classifier.silent_block] 0.2
    = Ok top_preds
    /\ forall i labels j,
         In (i, labels) top_preds -> In j labels ->
         j < Classifier.classes_num.
Proof.
  pose proof (@model_prediction_eq
                (Classifier.constrct_model Classifier.zero_weights)
                [Classifier.silent_block] 0.2 _ eq_refl) as H.
  eexists; split; [exact H|].
  exact (@classifier_labels_below_classes_num _ _ _ _ H).
Defined.

Lemma classifier_threshold_extremes_witness :
  exists top_preds,
    model_prediction (Classifier.constrct_model Classifier.zero_weights)
                     [Classifier.silent_block] 1
    = Ok top_preds
    /\ forall i labels, In (i, labels) top_preds -> labels = [].
Proof.
  pose proof (@model_prediction_eq
                (Classifier.constrct_model Classifier.zero_weights)
                [Classifier.silent_block] 1 _ eq_refl) as H.
  eexists; split; [exact H|].
  apply (proj1 (@classifier_threshold_extremes _ _ _ _ H)); lra.
Defined.

Section BlockToClassifier.

Import Classifier.

Variable features : mat.

Hypothesis features_width :
  forall row, In row features -> length row = freq_bins.

Lemma in_slice (s e : Z) (row : vec) :
  In row (slice features s e) -> In row features.
Proof.
  unfold slice; intros H.
  rewrite <- (firstn_skipn (Z.to_nat s) features); apply in_or_app; right.
  rewrite <- (firstn_skipn (Z.to_nat (e - s)) (skipn (Z.to_nat s) features)).
  apply in_or_app; left; exact H.
Qed.

(** Every block cut with the window of the classifier has its input
    shape. *)
Lemma blocks_valid (hop : Z) :
  (0 < hop)%Z ->
  forallb valid_block
    (map (fun s => slice features s (s + Z.of_nat time_steps))
         (block_starts (Z.of_nat (length features)) (Z.of_nat time_steps) hop))
  = true.
Proof.
  intros Hhop; apply forallb_forall; intros b Hb.
  apply in_map_iff in Hb; destruct Hb as [s [<- Hs]].
  apply in_block_starts in Hs; [|exact Hhop]; destruct Hs as [Hs _].
  unfold valid_block; apply andb_true_intro; split.
  - apply Nat.eqb_eq; rewrite slice_length by lia; apply Nat2Z.id.
  - apply forallb_forall; intros row Hrow; apply Nat.eqb_eq.
    apply features_width, (in_slice _ _ _ Hrow).
Qed.

End BlockToClassifier.

(** X15. The blocks of [block] with the window of the classifier feed
    it: for a sequence of more than [time_steps] = 10 rows of
    [freq_bins] = 128 entries and a positive hop, [block] returns a
    tensor the classifier accepts, and [model_prediction] returns one
    entry per block, keyed [0 .. N-1] for [N = ceil((T - 10) / hop)]. *)
Theorem block_feeds_classifier (w : Classifier.weights) (features : mat)
  (hop : Z) (threshold : R) :
  let T := Z.of_nat (length features) in
  let window := Z.of_nat Classifier.time_steps in
  (forall row, In row features -> length row = Classifier.freq_bins) ->
  (window < T)%Z -> (0 < hop)%Z ->
  exists blocks top_preds,
    block features window hop = Ok blocks
    /\ Classifier.valid_block_tensor blocks = true
    /\ model_prediction (Classifier.constrct_model w) blocks threshold
       = Ok top_preds
    /\ map fst top_preds = seq 0 (Z.to_nat (Np.ceil_div (T - window) hop)).
Proof.
  intros T window Hwidth HT Hhop.
  set (blocks := map (fun s => slice features s (s + window))
                     (block_starts T window hop)).
  assert (Hblock : block features window hop = Ok blocks)
    by (apply block_eq; unfold window; lia).
  assert (Hlen : length blocks = Z.to_nat (Np.ceil_div (T - window) hop))
    by (unfold blocks; rewrite length_map; apply block_starts_length).
  assert (Hvalid : Classifier.valid_block_tensor blocks = true).
  { unfold Classifier.valid_block_tensor; apply andb_true_intro; split.
    - apply negb_true_iff, Nat.eqb_neq; rewrite Hlen.
      assert (0 < Np.ceil_div (T - window) hop)%Z
        by (apply ceil_div_lt; lia).
      lia.
    - apply blocks_valid; assumption. }
  exists blocks.
  destruct (@model_prediction_classifier_keys w blocks threshold Hvalid)
    as [top_preds [Hmp Hkeys]].
  exists top_preds; rewrite <- Hlen; repeat split; assumption.
Qed.

Lemma block_feeds_classifier_witness :
  exists blocks top_preds,
    block (repeat (repeat 128%R Classifier.freq_bins) 21)
          (Z.of_nat Classifier.time_steps) 5
    = Ok blocks
    /\ Classifier.valid_block_tensor blocks = true
    /\ model_prediction (Classifier.constrct_model Classifier.zero_weights)
                        blocks 0.2
       = Ok top_preds
    /\ map fst top_preds = seq 0 (Z.to_nat (Np.ceil_div (21 - 10) 5)).
Proof.
  apply (@block_feeds_classifier Classifier.zero_weights
           (repeat (repeat 128%R Classifier.freq_bins) 21) 5 0.2).
  - intros row Hrow; apply repeat_spec in Hrow; subst row.
    apply repeat_length.
  - simpl; lia.
  - lia.
Defined.

(** X16. Blocks cut with another window are refused: for a positive
    window other than [time_steps] = 10, shorter than the sequence, and
    a positive hop, [block] succeeds and [model_prediction] with the
    classifier raises [ValueError] on its blocks. *)
Theorem other_window_refused (w : Classifier.weights) (features : mat)
  (window hop : Z) (threshold : R) :
  (0 < window)%Z -> (window < Z.of_nat (length features))%Z ->
  (0 < hop)%Z -> window <> Z.of_nat Classifier.time_steps ->
  exists blocks,
    block features window hop = Ok blocks
    /\ model_prediction (Classifier.constrct_model w) blocks threshold
       = Raise ValueError.
Proof.
  intros Hw HT Hhop Hne.
  set (T := Z.of_nat (length features)) in *.
  eexists; split; [apply block_eq; lia|]; fold T.
  unfold model_prediction; simpl; rewrite valid_block_tensor_rescale.
  replace (Classifier.valid_block_tensor _) with false; [reflexivity|].
  symmetry; unfold Classifier.valid_block_tensor; apply andb_false_intro2.
  assert (Hin : In 0%Z (block_starts T window hop))
    by (apply in_block_starts; [lia|split; [lia|exists 0%Z; lia]]).
  apply not_true_is_false; intros Hall.
  rewrite forallb_forall in Hall.
  specialize (Hall (slice features 0 (0 + window))
                   (in_map (fun s => slice features s (s + window)) _ _ Hin)).
  unfold Classifier.valid_block in Hall; apply andb_true_iff in Hall.
  destruct Hall as [Hlen _]; apply Nat.eqb_eq in Hlen.
  rewrite slice_length in Hlen by (unfold T in *; lia); lia.
Qed.

Lemma other_window_refused_witness :
  exists blocks,
    block (repeat (repeat 128%R Classifier.freq_bins) 21) 5 5 = Ok blocks
    /\ model_prediction (Classifier.constrct_model Classifier.zero_weights)
                        blocks 0.2
       = Raise ValueError.
Proof.
  apply (@other_window_refused Classifier.zero_weights
           (repeat (repeat 128%R Classifier.freq_bins) 21) 5 5 0.2);
    simpl; lia.
Defined.

(** ** Name resolution: columns, repeated block indices, the pipeline *)

Section Dict.

Variable V : Type.

Lemma dict_get_set_same (k : nat) (v : V) (d : list (nat * V)) :
  dict_get k (dict_set k v d) = Some v.
Proof.
  induction d as [|[k' v'] d IH]; simpl.
  - rewrite Nat.eqb_refl; reflexivity.
  - destruct (Nat.eqb_spec k' k) as [->|Hne]; simpl.
    + rewrite Nat.eqb_refl; reflexivity.
    + replace (k' =? k) with false by (symmetry; apply Nat.eqb_neq; exact Hne).
      exact IH.
Qed.

Lemma dict_get_set_other (k k0 : nat) (v : V) (d : list (nat * V)) :
  k0 <> k -> dict_get k0 (dict_set k v d) = dict_get k0 d.
Proof.
  intros Hne; induction d as [|[k' v'] d IH]; simpl.
  - replace (k =? k0) with false by (symmetry; apply Nat.eqb_neq; auto).
    reflexivity.
  - destruct (Nat.eqb_spec k' k) as [->|Hne']; simpl.
    + replace (k =? k0) with false by (symmetry; apply Nat.eqb_neq; auto).
      reflexivity.
    + rewrite IH; reflexivity.
Qed.

Lemma dict_set_keys (k x : nat) (v : V) (d : list (nat * V)) :
  In x (map fst (dict_set k v d)) <-> x = k \/ In x (map fst d).
Proof.
  induction d as [|[k' v'] d IH]; simpl; [intuition|].
  destruct (Nat.eqb_spec k' k) as [->|Hne]; simpl; [intuition|].
  rewrite IH; intuition.
Qed.

Lemma dict_set_NoDup (k : nat) (v : V) (d : list (nat * V)) :
  NoDup (map fst d) -> NoDup (map fst (dict_set k v d)).
Proof.
  induction d as [|[k' v'] d IH]; simpl; intros H.
  - constructor; [intros []|constructor].
  - inversion H as [|? ? Hnotin Hd]; subst.
    destruct (Nat.eqb_spec k' k) as [->|Hne]; simpl.
    + constructor; assumption.
    + constructor; [|apply IH; exact Hd].
      rewrite dict_set_keys; intros [Heq|Hin]; [congruence|contradiction].
Qed.

End Dict.

Lemma find_app_first {A : Type} (f : A -> bool) (l l' : list A) :
  find f (l ++ l')
  = match find f l with Some a => Some a | None => find f l' end.
Proof.
  induction l as [|a l IH]; simpl; [reflexivity|].
  destruct (f a); [reflexivity|exact IH].
Qed.

Lemma last_for_cons (x x0 : nat) (y0 : list nat)
  (preds : list (nat * list nat)) :
  last_for x ((x0, y0) :: preds)
  = match last_for x preds with
    | Some y => Some y
    | None => if x0 =? x then Some y0 else None
    end.
Proof.
  unfold last_for; simpl; rewrite find_app_first.
  destruct (find _ (rev preds)); simpl; [reflexivity|].
  destruct (x0 =? x); reflexivity.
Qed.

Lemma getitem_column_missing (df : DataFrame) (labels_col : string) :
  ~ In labels_col (map fst df) -> getitem_column df labels_col = Raise KeyError.
Proof.
  induction df as [|[name cells] df IH]; simpl; intros H; [reflexivity|].
  destruct (String.eqb_spec name labels_col) as [->|Hne];
    [exfalso; apply H; left; reflexivity|].
  apply IH; intros Hin; apply H; right; exact Hin.
Qed.

Lemma label_loop_last (series : list string) (preds : list (nat * list nat))
  (d : list (nat * list string)) :
  (forall x y j, In (x, y) preds -> In j y -> j < length series) ->
  exists labels,
    label_loop series (Ok d) preds = Ok labels
    /\ (NoDup (map fst d) -> NoDup (map fst labels))
    /\ forall x,
         dict_get x labels
         = match last_for x preds with
           | Some y => Some (map (name_of series) y)
           | None => dict_get x d
           end.
Proof.
  revert d; induction preds as [|[x0 y0] preds IH]; intros d Hall.
  - exists d; split; [reflexivity|]; split; [auto|]; intros x; reflexivity.
  - unfold label_loop; simpl.
    rewrite getitem_rows_ok
      by (intros j Hj; apply (Hall x0 y0 j); [left; reflexivity|exact Hj]).
    simpl.
    destruct (IH (dict_set x0 (map (name_of series) y0) d))
      as (labels & Hl & Hnd & Hget).
    { intros x y j Hin Hj; apply (Hall x y j); [right; exact Hin|exact Hj]. }
    exists labels; split; [exact Hl|]; split.
    + intros H; apply Hnd, dict_set_NoDup; exact H.
    + intros x; rewrite Hget, last_for_cons.
      destruct (last_for x preds); [reflexivity|].
      destruct (Nat.eqb_spec x0 x) as [->|Hne].
      * apply dict_get_set_same.
      * apply dict_get_set_other; auto.
Qed.

(** X17. Without the configured column in the table [prediction_label]
    raises [KeyError] whatever the predictions, the empty list
    included. *)
Theorem prediction_label_missing_column (df : DataFrame)
  (labels_col : string) (preds : list (nat * list nat)) :
  ~ In labels_col (map fst df) ->
  prediction_label df labels_col preds = Raise KeyError.
Proof.
  intros H; unfold prediction_label.
  rewrite (getitem_column_missing _ _ H); reflexivity.
Qed.

Lemma prediction_label_missing_column_witness :
  prediction_label class_labels "mid" [] = Raise KeyError.
Proof.
  apply (@prediction_label_missing_column class_labels "mid" []).
  simpl; intros [H|[H|[]]]; discriminate H.
Defined.

(** X18. The result of [prediction_label] is a dict: when all class
    indices are row numbers of the table, its keys are distinct, and
    the names under a block index are those of the last pair of the
    predictions with this index, an earlier pair with the same index
    being overwritten; an index that is in no pair is not a key. *)
Theorem prediction_label_last_wins (df : DataFrame) (labels_col : string)
  (series : list string) (preds : list (nat * list nat)) :
  getitem_column df labels_col = Ok series ->
  (forall x y j, In (x, y) preds -> In j y -> j < length series) ->
  exists labels,
    prediction_label df labels_col preds = Ok labels
    /\ NoDup (map fst labels)
    /\ forall x,
         dict_get x labels
         = option_map (map (name_of series)) (last_for x preds).
Proof.
  intros Hcol Hall; unfold prediction_label; rewrite Hcol; simpl.
  destruct (@label_loop_last series preds [] Hall) as (labels & Hl & Hnd & Hget).
  exists labels; split; [exact Hl|]; split; [apply Hnd; constructor|].
  intros x; rewrite Hget; destruct (last_for x preds); reflexivity.
Qed.

Lemma prediction_label_last_wins_witness :
  exists labels,
    prediction_label class_labels "display_name" [(0, [0]); (1, [2]); (0, [1])]
    = Ok labels
    /\ NoDup (map fst labels)
    /\ forall x,
         dict_get x labels
         = option_map (map (name_of ["Speech"; "Music"; "Bark"]%string))
                      (last_for x [(0, [0]); (1, [2]); (0, [1])]).
Proof.
  apply (@prediction_label_last_wins class_labels "display_name"
           ["Speech"; "Music"; "Bark"]%string
           [(0, [0]); (1, [2]); (0, [1])] eq_refl).
  intros x y j [[= <- <-]|[[= <- <-]|[[= <- <-]|[]]]] [<-|[]]; simpl; lia.
Defined.

Example prediction_label_repeated_index :
  prediction_label class_labels "display_name" [(0, [0]); (1, [2]); (0, [1])]
  = Ok [(0, ["Music"%string]); (1, ["Bark"%string])].
Proof. reflexivity. Qed.

(** X19. The whole chain after the embeddings never fails at the name
    lookup: when [model_prediction] with the classifier returns
    predictions and the configured column of the table has at least
    [classes_num] = 527 rows, [prediction_label] succeeds, with the
    block indices [0 .. N-1] as keys in this order and, for every block,
    the names of its class indices in their order. *)
Theorem predictions_resolve (w : Classifier.weights) (block_10s : tensor3)
  (threshold : R) (top_preds : list (nat * list nat)) (df : DataFrame)
  (labels_col : string) (series : list string) :
  model_prediction (Classifier.constrct_model w) block_10s threshold
  = Ok top_preds ->
  getitem_column df labels_col = Ok series ->
  Classifier.classes_num <= length series ->
  exists labels,
    prediction_label df labels_col top_preds = Ok labels
    /\ map fst labels = seq 0 (length block_10s)
    /\ labels
       = map (fun xy => (fst xy, map (name_of series) (snd xy))) top_preds.
Proof.
  intros Hmp Hcol Hrows.
  assert (Hall : forall x y j, In (x, y) top_preds -> In j y ->
                               j < length series).
  { intros x y j Hin Hj.
    pose proof Hmp as Hmp'.
    apply model_prediction_classifier in Hmp'; destruct Hmp' as [_ ->].
    apply in_map_iff in Hin; destruct Hin as (i' & [= <- <-] & _).
    apply in_selected in Hj; destruct Hj as (row & p & Hrow & Hp & _).
    apply nth_error_In, forward_row in Hrow; destruct Hrow as [Hlen _].
    assert (j < length row) by (apply nth_error_Some; congruence).
    lia. }
  apply model_prediction_classifier in Hmp; destruct Hmp as [_ Hpreds].
  assert (Hkeys : map fst top_preds = seq 0 (length block_10s))
    by (rewrite Hpreds, map_map; apply map_id).
  unfold prediction_label; rewrite Hcol; simpl.
  destruct (@label_loop_ok series top_preds [] Hall) as [labels [Hl Hv]].
  exists labels; split; [exact Hl|].
  assert (Hlabels : labels
                    = map (fun xy => (fst xy, map (name_of series) (snd xy)))
                          top_preds)
    by (apply Hv; simpl; rewrite Hkeys; apply seq_NoDup).
  split; [|exact Hlabels].
  rewrite Hlabels, map_map; simpl; exact Hkeys.
Qed.

Lemma predictions_resolve_witness :
  exists labels,
    prediction_label wide_labels "display_name"
      (map (fun i =>
              (i, selected (Classifier.forward Classifier.zero_weights
                              (rescale [Classifier.silent_block])) 0.2 i))
           (seq 0 1))
    = Ok labels
    /\ map fst labels = seq 0 1.
Proof.
  destruct (@predictions_resolve Classifier.zero_weights
              [Classifier.silent_block] 0.2 _ wide_labels "display_name"
              (repeat "sound"%string Classifier.classes_num)
              (@model_prediction_eq
                 (Classifier.constrct_model Classifier.zero_weights)
                 [Classifier.silent_block] 0.2 _ eq_refl)
              eq_refl)
    as (labels & Hl & Hk & _).
  - rewrite repeat_length; apply Nat.le_refl.
  - exists labels; split; [exact Hl|exact Hk].
Defined.

(** ** The clip and the rescaling *)

Section Denominators.

Local Open Scope R_scope.

Lemma clip_row_entry_nonneg (row : vec) (c : nat) :
  0 <= nth c (K.clip_row row (1 / 10000000) (1 - 1 / 10000000)) 0.
Proof.
  unfold K.clip_row.
  destruct (nth_in_or_default c
              (map (fun a => K.clip1 a (1 / 10000000) (1 - 1 / 10000000)) row)
              0)
    as [Hin | ->]; [|lra].
  apply in_map_iff in Hin.
  destruct Hin as [x [<- _]]; unfold K.clip1.
  pose proof (Rmax_r (Rmin x (1 - 1 / 10000000)) (1 / 10000000)); lra.
Qed.

Lemma clip_row_entry_lower (row : vec) (c : nat) :
  (c < length row)%nat ->
  1 / 10000000 <= nth c (K.clip_row row (1 / 10000000) (1 - 1 / 10000000)) 0.
Proof.
  intros Hc; unfold K.clip_row.
  rewrite nth_map_in_range with (d := 0) by exact Hc.
  unfold K.clip1; apply Rmax_r.
Qed.

Lemma sum_nonneg (l : vec) : (forall v, In v l -> 0 <= v) -> 0 <= K.sum l.
Proof.
  induction l as [|a l IH]; simpl; intros H; [lra|].
  pose proof (H a (or_introl eq_refl)).
  assert (0 <= K.sum l) by (apply IH; intros v Hv; apply H; right; exact Hv).
  lra.
Qed.

End Denominators.

(** X10. The clip keeps the normalisation of the attention weights
    defined: every sum over the time axis that [attention_pooling]
    divides by is at least [1e-7], whatever the attention weights are
    (all zero included). *)
Theorem attention_denominators_positive (att : tensor3) :
  Forall (Forall (fun s => (1 / 10000000 <= s)%R))
         (K.sum_axis1 (K.clip att (1 / 10000000) (1 - 1 / 10000000))).
Proof.
  apply Forall_forall; intros sums Hsums.
  apply Forall_forall; intros s Hs.
  unfold K.sum_axis1, K.clip in Hsums.
  apply in_map_iff in Hsums; destruct Hsums as [ca [<- Hca]].
  apply in_map_iff in Hca; destruct Hca as [a [<- _]].
  unfold K.sum_axis0 in Hs; apply in_map_iff in Hs.
  destruct Hs as [c [<- Hc]]; apply in_seq in Hc.
  unfold K.width in Hc.
  destruct a as [|row a]; [simpl in Hc; lia|].
  simpl in Hc; simpl.
  assert (Hrow : (1 / 10000000
                  <= nth c (K.clip_row row (1 / 10000000) (1 - 1 / 10000000)) 0)%R)
    by (apply clip_row_entry_lower; unfold K.clip_row in Hc;
        rewrite length_map in Hc; lia).
  assert (Hrest : (0 <= K.sum
                          (map (fun r : vec => nth c r 0%R)
                             (map (fun r => K.clip_row r (1 / 10000000)
                                                     (1 - 1 / 10000000)) a)))%R).
  { apply sum_nonneg; intros v Hv.
    apply in_map_iff in Hv; destruct Hv as [r [<- Hr]].
    apply in_map_iff in Hr; destruct Hr as [r0 [<- _]].
    apply clip_row_entry_nonneg. }
  lra.
Qed.

(** X20. The rescaling maps the byte scale onto [[-1, 1)]: when every
    entry of the block tensor lies in [[0, 255]], every entry of the
    tensor fed to the model lies between -1 and 127/128, the value 128
    becoming 0. *)
Theorem rescale_range (block_10s : tensor3) :
  (forall n t c x, get3 block_10s n t c = Some x -> (0 <= x <= 255)%R) ->
  (forall n t c v, get3 (rescale block_10s) n t c = Some v ->
                   (-1 <= v <= 127 / 128)%R)
  /\ rescale1 128 = 0%R.
Proof.
  intros Hrange; split; [|unfold rescale1; lra].
  intros n t c v Hv; rewrite get3_rescale in Hv.
  destruct (get3 block_10s n t c) as [x|] eqn:Hx; [|discriminate].
  simpl in Hv; injection Hv as <-.
  specialize (Hrange n t c x Hx); lra.
Qed.

Lemma rescale_range_witness :
  (-1 <= (255 - 128) / 128 <= 127 / 128)%R.
Proof.
  apply (proj1 (@rescale_range [[[0; 128; 255]%R]]
                  ltac:(intros [|n] [|t] [|[|[|c]]] x H; simpl in H;
                        try discriminate; try (destruct n; discriminate);
                        try (destruct t; discriminate);
                        try (destruct c; discriminate);
                        injection H as <-; lra))
          0 0 2).
  reflexivity.
Defined.
